(** * Kernel and gradient correction equations (pysph/sph/wc/kernel_correction.py)

    A shallow embedding of the four equation classes of the module

      - [KernelCorrection]               (kernel-sum normaliser),
      - [GradientCorrectionPreStep]      (moment-matrix assembler),
      - [GradientCorrection]             (gradient corrector),
      - [MixedKernelCorrectionPreStep]   (two-pass mixed assembler),

    together with the properties their design document states about them.

    Numbers.  The Python code computes on floats.  The embedding is written
    once, over an interface [Scalar] that lists exactly the operations the
    module uses ([+ - * /], [abs], [sqrt], [<=], the comparison with zero
    and the three literals [0.5], [1.0e-12], [1.0e-04]).  Two instances are
    given: IEEE binary64 ([float], executable) and the real numbers ([R],
    the exact arithmetic in which sums commute).

    Arithmetic.  The equations run on the doubles of the particle arrays,
    as generated code or on numpy's [float64]: [a / b] is the IEEE
    division, which returns an infinity or a NaN when [b] is zero and
    raises nothing.  No arithmetic operation of the module raises.

    Effects.  [IndexError], raised when a sequence is indexed out of range,
    is modelled by the error monad [result].  Arrays are lists, read with
    [getitem] and updated in place with [setitem]; indices are natural
    numbers.  A function that updates the arrays it is handed returns their
    final contents.  The small local arrays made by [declare('matrix(3)')]
    are records of three scalars, [vec3], and start out as zeros. *)

From Stdlib Require Import Floats Reals Lra Permutation.
From stdpp Require Import base list.

(** ** Scalars *)

Class Scalar (F : Type) := {
  f_zero : F;                 (* the literal 0.0 *)
  f_add : F → F → F;
  f_sub : F → F → F;
  f_mul : F → F → F;
  f_div : F → F → F;          (* a / b *)
  f_abs : F → F;
  f_sqrt : F → F;
  f_le : F → F → bool;        (* a <= b *)
  f_is_zero : F → bool;       (* b == 0.0 *)
  f_half : F;                 (* the literal 0.5 *)
  f_1em12 : F;                (* the literal 1.0e-12 *)
  f_1em4 : F                  (* the literal 1.0e-04 *)
}.

Declare Scope scalar_scope.
Delimit Scope scalar_scope with sc.
Infix "⊕" := f_add (at level 50, left associativity) : scalar_scope.
Infix "⊖" := f_sub (at level 50, left associativity) : scalar_scope.
Infix "⊗" := f_mul (at level 40, left associativity) : scalar_scope.
Open Scope scalar_scope.

(** IEEE binary64.  The hexadecimal literals are the doubles nearest to
    1.0e-12 and 1.0e-04, the values Python reads for these literals. *)
#[export] Instance float_Scalar : Scalar float := {|
  f_zero := 0%float;
  f_add := PrimFloat.add;
  f_sub := PrimFloat.sub;
  f_mul := PrimFloat.mul;
  f_div := PrimFloat.div;
  f_abs := PrimFloat.abs;
  f_sqrt := PrimFloat.sqrt;
  f_le := PrimFloat.leb;
  f_is_zero := λ b, PrimFloat.eqb b 0%float;
  f_half := 0.5%float;
  f_1em12 := 0x1.19799812dea11p-40%float;
  f_1em4 := 0x1.a36e2eb1c432dp-14%float
|}.

(** Exact arithmetic.  A quotient by zero is not a number of this
    arithmetic (the library gives [a / 0] an arbitrary value): what is
    stated in exact arithmetic assumes divisors that are not zero. *)
Definition R_le (a b : R) : bool := if Rle_dec a b then true else false.
Definition R_is_zero (b : R) : bool := if Req_dec_T b 0 then true else false.

#[export] Instance R_Scalar : Scalar R := {|
  f_zero := 0%R;
  f_add := Rplus;
  f_sub := Rminus;
  f_mul := Rmult;
  f_div := Rdiv;
  f_abs := Rabs;
  f_sqrt := sqrt;
  f_le := R_le;
  f_is_zero := R_is_zero;
  f_half := (1 / 2)%R;
  f_1em12 := (1 / 1000000000000)%R;
  f_1em4 := (1 / 10000)%R
|}.

(** ** Exceptions *)

Inductive exn : Set := IndexError.

Inductive result (A : Type) : Type :=
  | Ok (a : A)
  | Raise (e : exn).
Arguments Ok {A} a.
Arguments Raise {A} e.

#[export] Instance result_ret : MRet result := @Ok.
#[export] Instance result_bind : MBind result := λ A B f m,
  match m with
  | Ok a => f a
  | Raise e => Raise e
  end.


(** ** Sequences indexed by integers *)

(** [l[i]] *)
Definition getitem {A} (l : list A) (i : nat) : result A :=
  match l !! i with
  | Some v => Ok v
  | None => Raise IndexError
  end.

(** [l[i] = v] *)
Definition setitem {A} (l : list A) (i : nat) (v : A) : result (list A) :=
  if decide (i < length l) then Ok (<[i:=v]> l) else Raise IndexError.

(** [for a in l: s = body(a, s)] *)
Fixpoint foldM {S A} (body : A → S → result S) (l : list A) (s : S) : result S :=
  match l with
  | [] => Ok s
  | a :: l' => s' ← body a s; foldM body l' s'
  end.

(** [for i in range(n): s = body(i, s)] *)
Definition for_range {S} (n : nat) (body : nat → S → result S) (s : S) : result S :=
  foldM body (seq 0 n) s.

Section Core.
Context {F : Type} `{SF : Scalar F}.

#[export] Instance F_inhabited : Inhabited F := populate f_zero.

(** [declare('matrix(3)')]: a local array of three scalars *)
Record vec3 : Type := Vec3 { c0 : F; c1 : F; c2 : F }.

Definition vzero : vec3 := Vec3 f_zero f_zero f_zero.

Definition vnth (v : vec3) (i : nat) : F :=
  match i with
  | 0 => c0 v
  | 1 => c1 v
  | _ => c2 v
  end.

Definition vget (v : vec3) (i : nat) : result F :=
  if decide (i < 3) then Ok (vnth v i) else Raise IndexError.

Definition vupd (v : vec3) (i : nat) (a : F) : vec3 :=
  match i with
  | 0 => Vec3 a (c1 v) (c2 v)
  | 1 => Vec3 (c0 v) a (c2 v)
  | _ => Vec3 (c0 v) (c1 v) a
  end.

Definition vset (v : vec3) (i : nat) (a : F) : result vec3 :=
  if decide (i < 3) then Ok (vupd v i a) else Raise IndexError.

(** [sqrt(v[0] * v[0] + v[1] * v[1] + v[2] * v[2])] *)
Definition vnorm (v : vec3) : F :=
  f_sqrt (c0 v ⊗ c0 v ⊕ c1 v ⊗ c1 v ⊕ c2 v ⊗ c2 v).

(** Modelled from the spec: the pairwise kernel evaluator [KERNEL], an
    external collaborator.  [kernel(xij, rij, h)] returns the value and
    [gradient(xij, rij, h, grad)] fills the three entries of [grad]; both
    depend on their arguments only and do not raise. *)
Record Kernel : Type := {
  kernel : vec3 → F → F → F;
  gradient : vec3 → F → F → vec3
}.

End Core.
Arguments vec3 F : clear implicits.
Arguments Kernel F : clear implicits.

(** ** KernelCorrection *)

Module KernelCorrection.
Section Defs.
Context {F : Type} `{SF : Scalar F}.

Definition initialize (d_idx : nat) (d_cwij : list F) : result (list F) :=
  setitem d_cwij d_idx f_zero.

Definition loop (d_idx s_idx : nat) (d_cwij s_m s_rho : list F) (WIJ : F)
  : result (list F) :=
  cur ← getitem d_cwij d_idx;
  m ← getitem s_m s_idx;
  rho ← getitem s_rho s_idx;
  setitem d_cwij d_idx (cur ⊕ f_div (m ⊗ WIJ) rho).

(** Modelled from the spec: the calling sequence of the equation scheduler
    for one destination particle, [initialize] and then [loop] once per
    neighbour, each with the kernel value [WIJ] of the pair. *)
Definition run (d_idx : nat) (d_cwij s_m s_rho : list F) (pairs : list (nat * F))
  : result (list F) :=
  d_cwij ← initialize d_idx d_cwij;
  foldM (λ p d_cwij, loop d_idx p.1 d_cwij s_m s_rho p.2) pairs d_cwij.

End Defs.
End KernelCorrection.

(** ** The accumulation shared by the two assemblers

    The statements guarded by [if r >= 1.0e-12] are the same text in
    [GradientCorrectionPreStep.loop_all] and in
    [MixedKernelCorrectionPreStep.loop_all]:
<<
      for i in range(n):
          xi = xij[i]
          for j in range(n):
              xj = xij[j]
              d_m_mat[9 * d_idx + 3 * i + j] += dw * V * xi * xj / r
>> *)
Section Accumulate.
Context {F : Type} `{SF : Scalar F}.

Definition accumulate (n d_idx : nat) (xij : vec3 F) (dw V r : F) (d_m_mat : list F)
  : result (list F) :=
  for_range n (λ i d_m_mat,
    xi ← vget xij i;
    for_range n (λ j d_m_mat,
      xj ← vget xij j;
      cur ← getitem d_m_mat (9 * d_idx + 3 * i + j);
      setitem d_m_mat (9 * d_idx + 3 * i + j)
        (cur ⊕ f_div (dw ⊗ V ⊗ xi ⊗ xj) r)) d_m_mat) d_m_mat.

(** [for i in range(9): d_m_mat[9 * d_idx + i] = 0.0], the [initialize] of
    both assemblers *)
Definition zero_m_mat (d_idx : nat) (d_m_mat : list F) : result (list F) :=
  for_range 9 (λ i d_m_mat, setitem d_m_mat (9 * d_idx + i) f_zero) d_m_mat.

End Accumulate.

(** ** GradientCorrectionPreStep *)

Module GradientCorrectionPreStep.
Section Defs.
Context {F : Type} `{SF : Scalar F}.

Definition initialize (d_idx : nat) (d_m_mat : list F) : result (list F) :=
  zero_m_mat d_idx d_m_mat.

(** The body of [for k in range(N_NBRS)] after [s_idx = NBRS[k]] *)
Definition neighbour (n d_idx : nat) (x y z h : F)
    (s_m s_rho s_x s_y s_z s_h : list F) (KERNEL : Kernel F)
    (s_idx : nat) (d_m_mat : list F) : result (list F) :=
  sx ← getitem s_x s_idx;
  sy ← getitem s_y s_idx;
  sz ← getitem s_z s_idx;
  let xij := Vec3 (x ⊖ sx) (y ⊖ sy) (z ⊖ sz) in
  sh ← getitem s_h s_idx;
  let hij := (h ⊕ sh) ⊗ f_half in
  let r := vnorm xij in
  let dwij := gradient KERNEL xij r hij in
  let dw := vnorm dwij in
  m ← getitem s_m s_idx;
  rho ← getitem s_rho s_idx;
  let V := f_div m rho in
  if f_le f_1em12 r then accumulate n d_idx xij dw V r d_m_mat else Ok d_m_mat.

Definition loop_all (dim d_idx : nat)
    (d_m_mat s_m s_rho d_x d_y d_z d_h s_x s_y s_z s_h : list F)
    (KERNEL : Kernel F) (NBRS : list nat) (N_NBRS : nat) : result (list F) :=
  x ← getitem d_x d_idx;
  y ← getitem d_y d_idx;
  z ← getitem d_z d_idx;
  h ← getitem d_h d_idx;
  let n := dim in
  for_range N_NBRS (λ k d_m_mat,
    s_idx ← getitem NBRS k;
    neighbour n d_idx x y z h s_m s_rho s_x s_y s_z s_h KERNEL s_idx d_m_mat) d_m_mat.

(** Modelled from the spec: the calling sequence of the equation scheduler
    for one destination particle, [initialize] and then [loop_all]. *)
Definition assemble (dim d_idx : nat)
    (d_m_mat s_m s_rho d_x d_y d_z d_h s_x s_y s_z s_h : list F)
    (KERNEL : Kernel F) (NBRS : list nat) (N_NBRS : nat) : result (list F) :=
  d_m_mat ← initialize d_idx d_m_mat;
  loop_all dim d_idx d_m_mat s_m s_rho d_x d_y d_z d_h s_x s_y s_z s_h
    KERNEL NBRS N_NBRS.

End Defs.
End GradientCorrectionPreStep.

(** ** GradientCorrection *)

Module GradientCorrection.
Section Defs.
Context {F : Type} `{SF : Scalar F}.

(** Modelled from the spec: the linear solver [gj_solve(A, b, n, result)]
    of pysph.sph.wc.density_correction, which is not part of this module.
    Given the flattened [n]-by-[n] matrix [A] and the vector [b] it stores
    a solution of [A x = b] in [result]; it works by elimination on a copy
    of its own, is deterministic and signals no failure.  It is a
    parameter of [loop]. *)
Definition solver : Type := list F → vec3 F → nat → vec3 F → vec3 F.

(** The two arrays the equation is handed by reference.  [loop] starts
    from their contents at the call and returns their contents at the
    return; the local arrays [temp] and [res] are its own. *)
Record arrays : Type := Arrays { a_m_mat : list F; a_DWIJ : vec3 F }.

Definition loop (dim : nat) (tol : F) (gj_solve : solver)
    (d_idx : nat) (d_m_mat : list F) (DWIJ : vec3 F) (HIJ : F) : result arrays :=
  let st := Arrays d_m_mat DWIJ in
  let n := dim in
  let temp := replicate 9 f_zero in
  let res := vzero in
  let eps := f_1em4 ⊗ HIJ in
  temp ← for_range n (λ i temp,
    for_range n (λ j temp,
      v ← getitem (a_m_mat st) (9 * d_idx + 3 * i + j);
      setitem temp (n * i + j) v) temp) temp;
  let res := gj_solve temp (a_DWIJ st) n res in
  let change := f_zero in
  change ← for_range n (λ i change,
    a ← vget (a_DWIJ st) i;
    b ← vget res i;
    Ok (change ⊕ f_div (f_abs (a ⊖ b)) (f_abs a ⊕ eps))) change;
  if f_le change tol
  then for_range n (λ i st,
         b ← vget res i;
         DWIJ ← vset (a_DWIJ st) i b;
         Ok (Arrays (a_m_mat st) DWIJ)) st
  else Ok st.

End Defs.
Arguments solver F : clear implicits.
Arguments arrays F : clear implicits.
End GradientCorrection.

(** ** MixedKernelCorrectionPreStep *)

Module MixedKernelCorrectionPreStep.
Section Defs.
Context {F : Type} `{SF : Scalar F}.

Definition initialize (d_idx : nat) (d_m_mat : list F) : result (list F) :=
  zero_m_mat d_idx d_m_mat.

(** The body of the first [for k in range(N_NBRS)] after [s_idx = NBRS[k]],
    on [(den, numerator)] *)
Definition pass1_neighbour (n : nat) (x y z h : F)
    (s_m s_rho s_x s_y s_z s_h : list F) (KERNEL : Kernel F)
    (s_idx : nat) (st : F * vec3 F) : result (F * vec3 F) :=
  let '(den, numerator) := st in
  sx ← getitem s_x s_idx;
  sy ← getitem s_y s_idx;
  sz ← getitem s_z s_idx;
  let xij := Vec3 (x ⊖ sx) (y ⊖ sy) (z ⊖ sz) in
  m ← getitem s_m s_idx;
  rho ← getitem s_rho s_idx;
  let V := f_div m rho in
  let rij := vnorm xij in
  sh ← getitem s_h s_idx;
  let hij := (h ⊕ sh) ⊗ f_half in
  let dwij := gradient KERNEL xij rij hij in
  let wij := kernel KERNEL xij rij hij in
  let den := den ⊕ V ⊗ wij in
  numerator ← for_range n (λ i numerator,
    cur ← vget numerator i;
    g ← vget dwij i;
    vset numerator i (cur ⊕ V ⊗ g)) numerator;
  Ok (den, numerator).

(** The body of the second [for k in range(N_NBRS)] after
    [s_idx = NBRS[k]], on [(dwij1, d_m_mat)] *)
Definition pass2_neighbour (n d_idx : nat) (x y z h : F)
    (s_m s_rho s_x s_y s_z s_h : list F) (KERNEL : Kernel F)
    (numerator : vec3 F) (den : F)
    (s_idx : nat) (st : vec3 F * list F) : result (vec3 F * list F) :=
  let '(dwij1, d_m_mat) := st in
  sx ← getitem s_x s_idx;
  sy ← getitem s_y s_idx;
  sz ← getitem s_z s_idx;
  let xij := Vec3 (x ⊖ sx) (y ⊖ sy) (z ⊖ sz) in
  sh ← getitem s_h s_idx;
  let hij := (h ⊕ sh) ⊗ f_half in
  let r := vnorm xij in
  let dwij := gradient KERNEL xij r hij in
  dwij1 ← for_range n (λ i dwij1,
    g ← vget dwij i;
    nu ← vget numerator i;
    vset dwij1 i (f_div (g ⊖ f_div nu den) den)) dwij1;
  let dw := vnorm dwij1 in
  m ← getitem s_m s_idx;
  rho ← getitem s_rho s_idx;
  let V := f_div m rho in
  d_m_mat ← (if f_le f_1em12 r then accumulate n d_idx xij dw V r d_m_mat
             else Ok d_m_mat);
  Ok (dwij1, d_m_mat).

(** Returns the final contents of [(d_m_mat, d_cwij)]. *)
Definition loop_all (dim d_idx : nat)
    (d_x d_y d_z d_h s_x s_y s_z s_h : list F) (KERNEL : Kernel F)
    (N_NBRS : nat) (NBRS : list nat) (d_m_mat s_m s_rho d_cwij : list F)
  : result (list F * list F) :=
  x ← getitem d_x d_idx;
  y ← getitem d_y d_idx;
  z ← getitem d_z d_idx;
  h ← getitem d_h d_idx;
  let n := dim in
  '(numerator, dwij1) ← for_range 3 (λ i (st : vec3 F * vec3 F),
    numerator ← vset st.1 i f_zero;
    dwij1 ← vset st.2 i f_zero;
    Ok (numerator, dwij1)) (vzero, vzero);
  let den := f_zero in
  '(den, numerator) ← for_range N_NBRS (λ k st,
    s_idx ← getitem NBRS k;
    pass1_neighbour n x y z h s_m s_rho s_x s_y s_z s_h KERNEL s_idx st)
    (den, numerator);
  d_cwij ← setitem d_cwij d_idx den;
  '(dwij1, d_m_mat) ← for_range N_NBRS (λ k st,
    s_idx ← getitem NBRS k;
    pass2_neighbour n d_idx x y z h s_m s_rho s_x s_y s_z s_h KERNEL
      numerator den s_idx st)
    (dwij1, d_m_mat);
  Ok (d_m_mat, d_cwij).

(** Modelled from the spec: the calling sequence of the equation scheduler
    for one destination particle, [initialize] and then [loop_all]. *)
Definition assemble (dim d_idx : nat)
    (d_x d_y d_z d_h s_x s_y s_z s_h : list F) (KERNEL : Kernel F)
    (N_NBRS : nat) (NBRS : list nat) (d_m_mat s_m s_rho d_cwij : list F)
  : result (list F * list F) :=
  d_m_mat ← initialize d_idx d_m_mat;
  loop_all dim d_idx d_x d_y d_z d_h s_x s_y s_z s_h KERNEL N_NBRS NBRS
    d_m_mat s_m s_rho d_cwij.

End Defs.
End MixedKernelCorrectionPreStep.

(** * Reference definitions

    The quantities of the design document, written as closed formulas; the
    theorems below compare the code with them. *)

Section Reference.
Context {F : Type} `{SF : Scalar F}.

(** The fields of a particle array that the equations read. *)
Record particles : Type := Particles {
  p_x : list F; p_y : list F; p_z : list F;
  p_h : list F; p_m : list F; p_rho : list F
}.

(** The pairwise sample of a destination [a] and a neighbour [b]:
    displacement [xij = x_a - x_b], distance [r = |xij|], the kernel
    gradient and value at the pair's smoothing length [(h_a + h_b) * 0.5],
    and the neighbour's volume [V = m_b / rho_b]. *)
Record sample : Type := Sample {
  sm_xij : vec3 F; sm_r : F; sm_dwij : vec3 F; sm_wij : F; sm_V : F
}.

Definition pair_sample (KERNEL : Kernel F) (dst src : particles) (a b : nat) : sample :=
  let xij := Vec3 (p_x dst !!! a ⊖ p_x src !!! b)
                  (p_y dst !!! a ⊖ p_y src !!! b)
                  (p_z dst !!! a ⊖ p_z src !!! b) in
  let r := vnorm xij in
  let hij := (p_h dst !!! a ⊕ p_h src !!! b) ⊗ f_half in
  {| sm_xij := xij; sm_r := r;
     sm_dwij := gradient KERNEL xij r hij;
     sm_wij := kernel KERNEL xij r hij;
     sm_V := f_div (p_m src !!! b) (p_rho src !!! b) |}.

(** [dw * V * xij[i] * xij[j] / r] *)
Definition contribution (dw : F) (s : sample) (i j : nat) : F :=
  f_div (dw ⊗ sm_V s ⊗ vnth (sm_xij s) i ⊗ vnth (sm_xij s) j) (sm_r s).

(** What one neighbour does to entry [(i, j)]: it adds its contribution
    when [r >= 1.0e-12] and leaves the entry as it is otherwise. *)
Definition add_guarded (dw : sample → F) (i j : nat) (acc : F) (s : sample) : F :=
  if f_le f_1em12 (sm_r s) then acc ⊕ contribution (dw s) s i j else acc.

Definition moment_entry (dw : sample → F) (i j : nat) (ss : list sample) : F :=
  fold_left (add_guarded dw i j) ss f_zero.

(** [|grad W_ab|] *)
Definition grad_norm (s : sample) : F := vnorm (sm_dwij s).

(** [den = sum_b V_b * W_ab] and [numerator[i] = sum_b V_b * grad W_ab[i]] *)
Definition kernel_sum (ss : list sample) : F :=
  fold_left (λ acc s, acc ⊕ sm_V s ⊗ sm_wij s) ss f_zero.

Definition gradient_sum (i : nat) (ss : list sample) : F :=
  fold_left (λ acc s, acc ⊕ sm_V s ⊗ vnth (sm_dwij s) i) ss f_zero.

(** The debiased gradient [(grad W_ab[i] - numerator[i] / den) / den] in
    the first [n] components, zero in the others. *)
Definition debiased_component (n : nat) (num : nat → F) (den : F) (g : vec3 F) (i : nat) : F :=
  if decide (i < n) then f_div (vnth g i ⊖ f_div (num i) den) den else f_zero.

Definition debiased (n : nat) (num : nat → F) (den : F) (g : vec3 F) : vec3 F :=
  Vec3 (debiased_component n num den g 0)
       (debiased_component n num den g 1)
       (debiased_component n num den g 2).

Definition debiased_norm (n : nat) (ss : list sample) (s : sample) : F :=
  vnorm (debiased n (λ i, gradient_sum i ss) (kernel_sum ss) (sm_dwij s)).

(** The neighbour [b] can be read from the source arrays. *)
Definition readable (src : particles) (b : nat) : Prop :=
  b < length (p_x src) ∧ b < length (p_y src) ∧ b < length (p_z src) ∧
  b < length (p_h src) ∧ b < length (p_m src) ∧ b < length (p_rho src).

(** The neighbour [b] can be read and its density is not zero: its volume
    [m_b / rho_b] is a quotient of the arithmetic. *)
Definition neighbour_ok (src : particles) (b : nat) : Prop :=
  readable src b ∧ f_is_zero (p_rho src !!! b) = false.

(** The destination [a] can be read and owns nine entries of [d_m_mat]. *)
Definition destination_ok (dst : particles) (a : nat) (d_m_mat : list F) : Prop :=
  a < length (p_x dst) ∧ a < length (p_y dst) ∧ a < length (p_z dst) ∧
  a < length (p_h dst) ∧ 9 * a + 9 ≤ length d_m_mat.

(** [m'] is [m0] with the nine entries of particle [a] replaced: [entry i j]
    in the leading [n]-by-[n] block, zero in the rest of the 3-by-3 matrix;
    the entries of the other particles are those of [m0]. *)
Definition assembled (n a : nat) (entry : nat → nat → F) (m0 m' : list F) : Prop :=
  length m' = length m0 ∧
  (∀ i j, i < 3 → j < 3 →
     m' !! (9 * a + 3 * i + j)
       = Some (if decide (i < n ∧ j < n) then entry i j else f_zero)) ∧
  (∀ k, k < 9 * a ∨ 9 * a + 9 ≤ k → m' !! k = m0 !! k).

(** The assemblers applied to particle arrays. *)
Definition moment_matrix (dim : nat) (KERNEL : Kernel F) (dst src : particles)
    (a : nat) (d_m_mat : list F) (NBRS : list nat) (N_NBRS : nat) : result (list F) :=
  GradientCorrectionPreStep.assemble dim a d_m_mat (p_m src) (p_rho src)
    (p_x dst) (p_y dst) (p_z dst) (p_h dst)
    (p_x src) (p_y src) (p_z src) (p_h src) KERNEL NBRS N_NBRS.

Definition mixed_matrix (dim : nat) (KERNEL : Kernel F) (dst src : particles)
    (a : nat) (d_m_mat d_cwij : list F) (NBRS : list nat) (N_NBRS : nat)
  : result (list F * list F) :=
  MixedKernelCorrectionPreStep.assemble dim a
    (p_x dst) (p_y dst) (p_z dst) (p_h dst)
    (p_x src) (p_y src) (p_z src) (p_h src) KERNEL N_NBRS NBRS
    d_m_mat (p_m src) (p_rho src) d_cwij.

(** The part of the 3-by-3 matrix of particle [a] outside the leading
    [n]-by-[n] block is zero. *)
Definition zero_beyond (n a : nat) (m : list F) : Prop :=
  ∀ i j, i < 3 → j < 3 → n ≤ i ∨ n ≤ j → m !! (9 * a + 3 * i + j) = Some f_zero.

(** The leading [n]-by-[n] block [M] of the matrix of particle [a], stored
    row-major with stride [n] in a fresh array of nine scalars. *)
Definition leading_block (n a : nat) (d_m_mat : list F) : list F :=
  foldl (λ temp i,
    foldl (λ temp j, <[n * i + j := d_m_mat !!! (9 * a + 3 * i + j)]> temp)
      temp (seq 0 n))
    (replicate 9 f_zero) (seq 0 n).

(** [delta = sum_{i < n} |DWIJ[i] - x[i]| / (|DWIJ[i]| + 1e-4 * HIJ)] *)
Definition change_term (DWIJ x : vec3 F) (HIJ : F) (i : nat) : F :=
  f_div (f_abs (vnth DWIJ i ⊖ vnth x i)) (f_abs (vnth DWIJ i) ⊕ f_1em4 ⊗ HIJ).

Definition relative_change (n : nat) (DWIJ x : vec3 F) (HIJ : F) : F :=
  foldl (λ acc i, acc ⊕ change_term DWIJ x HIJ i) f_zero (seq 0 n).

(** [DWIJ] with its first [n] components replaced by those of [x] *)
Definition overwrite (n : nat) (DWIJ x : vec3 F) : vec3 F :=
  let pick i := if decide (i < n) then vnth x i else vnth DWIJ i in
  Vec3 (pick 0) (pick 1) (pick 2).

(** The pairs [(b, W_ab)] handed to [KernelCorrection.loop] for the
    neighbours [bs] of [a]. *)
Definition kernel_pairs (KERNEL : Kernel F) (dst src : particles)
    (a : nat) (bs : list nat) : list (nat * F) :=
  (λ b, (b, sm_wij (pair_sample KERNEL dst src a b))) <$> bs.

(** ** States of the matrix array

    Relations between the matrix array before and after a piece of the
    code, used to state what the loops do. *)

(** [initialize]: the nine entries of the particle are set to zero. *)
Definition zeroed (a : nat) (m m' : list F) : Prop :=
  length m' = length m ∧
  ∀ k, m' !! k = if decide (9 * a ≤ k < 9 * a + 9) then Some f_zero else m !! k.

(** [dw * V * xij[i] * xij[j] / r] *)
Definition term (xij : vec3 F) (dw V r : F) (i j : nat) : F :=
  f_div (dw ⊗ V ⊗ vnth xij i ⊗ vnth xij j) r.

(** The state reached by a completed accumulation: the entries of the
    leading [n]-by-[n] block of particle [a] have grown by their term, all
    other entries are as before. *)
Definition accumulated (n a : nat) (xij : vec3 F) (dw V r : F) (m m' : list F) : Prop :=
  length m' = length m ∧
  (∀ i j, i < n → j < n →
     m' !! (9 * a + 3 * i + j) = Some (m !!! (9 * a + 3 * i + j) ⊕ term xij dw V r i j)) ∧
  (∀ k, (∀ i j, i < n → j < n → k ≠ 9 * a + 3 * i + j) → m' !! k = m !! k).

(** [m'] is [m] after the samples [ss] have been accumulated with the
    gradient norm [dw]: every entry of the leading block has been through
    [add_guarded] once per sample, in order; nothing else has changed. *)
Definition folded (n a : nat) (dw : sample → F) (ss : list sample) (m m' : list F) : Prop :=
  length m' = length m ∧
  (∀ i j, i < n → j < n →
     m' !! (9 * a + 3 * i + j)
       = Some (fold_left (add_guarded dw i j) ss (m !!! (9 * a + 3 * i + j)))) ∧
  (∀ k, (∀ i j, i < n → j < n → k ≠ 9 * a + 3 * i + j) → m' !! k = m !! k).

(** [m'] agrees with [m] outside the leading [n]-by-[n] block of [a]. *)
Definition same_outside (n a : nat) (m m' : list F) : Prop :=
  length m' = length m ∧
  ∀ k, (∀ i j, i < n → j < n → k ≠ 9 * a + 3 * i + j) → m' !! k = m !! k.

End Reference.
Arguments particles F : clear implicits.
Arguments sample F : clear implicits.

(** In exact arithmetic: [sum_b (m_b / rho_b) * W_ab] over the pairs
    [(b, W_ab)] of a destination. *)
Definition volume_weighted_sum (s_m s_rho : list R) (pairs : list (nat * R)) : R :=
  foldr (λ p acc, (s_m !!! p.1 / s_rho !!! p.1 * p.2 + acc)%R) 0%R pairs.

(** The scalar that the kernel-sum normaliser computes: the terms
    [m_b * W_ab / rho_b], the product first and then the quotient, as
    [KernelCorrection.loop] writes them, added one after the other to
    [0.0]. *)
Definition stored_sum {F : Type} `{SF : Scalar F} (s_m s_rho : list F)
    (pairs : list (nat * F)) : F :=
  fold_left (λ acc p, acc ⊕ f_div (s_m !!! p.1 ⊗ p.2) (s_rho !!! p.1)) pairs f_zero.

(** The sum as the design document writes it, [cwij += V_b * W_ab] with
    the volume [V_b = m_b / rho_b]: the quotient first and then the
    product. *)
Definition volume_sum {F : Type} `{SF : Scalar F} (s_m s_rho : list F)
    (pairs : list (nat * F)) : F :=
  fold_left (λ acc p, acc ⊕ f_div (s_m !!! p.1) (s_rho !!! p.1) ⊗ p.2) pairs f_zero.

(** The pair [(b, W_ab)] can be read: [b] indexes the mass and the
    density. *)
Definition pair_readable {F : Type} (s_m s_rho : list F) (p : nat * F) : Prop :=
  p.1 < length s_m ∧ p.1 < length s_rho.

(** The pair [(b, W_ab)] can be processed: [b] indexes the mass and the
    density, and the density is not zero. *)
Definition pair_ok {F : Type} `{SF : Scalar F} (s_m s_rho : list F) (p : nat * F) : Prop :=
  p.1 < length s_m ∧ p.1 < length s_rho ∧ f_is_zero (s_rho !!! p.1) = false.

(** ** The worked example

    Two particles in the plane, [a] at (0, 0) and [b] at (1, 0), with
    [h = 1], [m = 1] and [rho = 1], and the test kernel
    [W(r) = max(0, 1 - r)] with gradient [-xij] for [r < 1]. *)

Definition vneg (v : vec3 float) : vec3 float :=
  Vec3 (- c0 v)%float (- c1 v)%float (- c2 v)%float.

Definition max0 (v : float) : float := if (0 <? v)%float then v else 0%float.

(** The gradient is [-xij] inside the support, [r < 1], and zero outside. *)
Definition test_kernel : Kernel float := {|
  kernel := λ _ r _, max0 (1 - r)%float;
  gradient := λ xij r _, if (r <? 1)%float then vneg xij else vzero
|}.

(** The same kernel with the gradient [-xij] also on the edge [r = 1]. *)
Definition test_kernel_closed : Kernel float := {|
  kernel := λ _ r _, max0 (1 - r)%float;
  gradient := λ xij r _, if (r <=? 1)%float then vneg xij else vzero
|}.

Definition two_particles : particles float :=
  Particles [0; 1]%float [0; 0]%float [0; 0]%float
            [1; 1]%float [1; 1]%float [1; 1]%float.

(** The same two particles, [b] with density zero. *)
Definition two_particles_void : particles float :=
  Particles [0; 1]%float [0; 0]%float [0; 0]%float
            [1; 1]%float [1; 1]%float [1; 0]%float.


(** ** Test data *)

(** Three particles with different masses and densities; the third is off
    the plane [z = 0]. *)
Definition three_particles : particles float :=
  Particles [0; 0.5; 0.25]%float [0; 0; 0.5]%float [0; 0; 0.75]%float
            [1; 1; 1]%float [1; 2; 1]%float [1; 4; 2]%float.

(** A solver for diagonal systems: [result[i] = b[i] / A[n * i + i]]. *)
Definition diagonal_solver : GradientCorrection.solver float := λ A b n res,
  let q i := if decide (i < n) then PrimFloat.div (vnth b i) (A !!! (n * i + i))
             else vnth res i in
  Vec3 (q 0) (q 1) (q 2).

(** The worked example in exact arithmetic. *)
Definition linear_kernel : Kernel R := {|
  kernel := λ _ r _, (1 - r)%R;
  gradient := λ xij _ _, Vec3 (- c0 xij)%R (- c1 xij)%R (- c2 xij)%R
|}.

Definition two_particles_R : particles R :=
  Particles [0; 1]%R [0; 0]%R [0; 0]%R [1; 1]%R [1; 1]%R [1; 1]%R.

(** ** Locality

    [m'] has the length of [m] and agrees with it outside the nine entries
    of particle [a]. *)
Definition isolated {F : Type} (a : nat) (m m' : list F) : Prop :=
  length m' = length m ∧
  ∀ k, k < 9 * a ∨ 9 * a + 9 ≤ k → m' !! k = m !! k.

(** The 3-by-3 matrix of particle [a] in [m] is symmetric. *)
Definition symmetric {F : Type} (a : nat) (m : list F) : Prop :=
  ∀ i j, i < 3 → j < 3 → m !! (9 * a + 3 * i + j) = m !! (9 * a + 3 * j + i).

(** The quadratic form [u^T M u] of the 3-by-3 matrix [M] of particle [a],
    in exact arithmetic. *)
Definition quadratic_form (a : nat) (u : vec3 R) (m : list R) : R :=
  foldr (λ i acc,
    foldr (λ j acc,
      let e := m !!! (9 * a + 3 * i + j) in (vnth u i * vnth u j * e + acc)%R)
      acc (seq 0 3))
    0%R (seq 0 3).

(** The volume [m_b / rho_b] of the neighbour [b] is not negative. *)
Definition volume_nonneg (src : particles R) (b : nat) : Prop :=
  (0 <= p_m src !!! b / p_rho src !!! b)%R.

(** [sum_{i, j < 3} w[i] * w[j] * e i j] *)
Definition form3 (w : vec3 R) (e : nat → nat → R) : R :=
  foldr (λ i acc,
    foldr (λ j acc, (vnth w i * vnth w j * e i j + acc)%R) acc (seq 0 3))
    0%R (seq 0 3).

(** [u] with its components from [n] on set to zero *)
Definition mask (n : nat) (u : vec3 R) : vec3 R :=
  let pick i := if decide (i < n) then vnth u i else 0%R in
  Vec3 (pick 0) (pick 1) (pick 2).

(** [m] with the nine entries of particle [a] set to zero *)
Definition zero_slot {F : Type} `{SF : Scalar F} (a : nat) (m : list F) : list F :=
  list_inserts (9 * a) (replicate 9 f_zero) m.

(** [x] is a NaN of binary64. *)
Definition is_NaN (x : float) : Prop := Prim2SF x = S754_nan.

(** [x] is an infinity or a NaN of binary64. *)
Definition not_finite (x : float) : Prop :=
  match Prim2SF x with
  | S754_infinity _ | S754_nan => True
  | _ => False
  end.

(** The neighbour [b] of [a] passes the guard [r >= 1.0e-12]. *)
Definition apart {F : Type} `{SF : Scalar F} (KERNEL : Kernel F)
    (dst src : particles F) (a b : nat) : Prop :=
  f_le f_1em12 (sm_r (pair_sample KERNEL dst src a b)) = true.

#[export] Instance apart_dec {F : Type} `{SF : Scalar F} (KERNEL : Kernel F)
    (dst src : particles F) (a b : nat) : Decision (apart KERNEL dst src a b) :=
  decide (f_le f_1em12 (sm_r (pair_sample KERNEL dst src a b)) = true).

(** A kernel of exact arithmetic with a constant value, for tests. *)
Definition flat_kernel : Kernel R := {|
  kernel := λ _ _ _, 1%R;
  gradient := λ xij _ _, Vec3 (- c0 xij)%R (- c1 xij)%R (- c2 xij)%R
|}.

(** * Properties *)

(** ** The error monad and the loops *)

Lemma bind_Ok {A B} (a : A) (f : A → result B) : Ok a ≫= f = f a.
Proof. reflexivity. Qed.

Lemma bind_Ok_inv {A B} (m : result A) (f : A → result B) (b : B) :
  m ≫= f = Ok b → ∃ a, m = Ok a ∧ f a = Ok b.
Proof. destruct m as [a|e]; [eauto | discriminate]. Qed.

Lemma getitem_Some {A} (l : list A) i v : l !! i = Some v → getitem l i = Ok v.
Proof. unfold getitem. by intros ->. Qed.

Lemma getitem_lt {A} `{Inhabited A} (l : list A) i :
  i < length l → getitem l i = Ok (l !!! i).
Proof.
  intros Hi. apply getitem_Some. by apply list_lookup_lookup_total_lt.
Qed.

Lemma setitem_lt {A} (l : list A) i v :
  i < length l → setitem l i v = Ok (<[i:=v]> l).
Proof. unfold setitem. intros Hi. by rewrite decide_True. Qed.

Lemma setitem_Ok_inv {A} (l l' : list A) i v :
  setitem l i v = Ok l' → i < length l ∧ l' = <[i:=v]> l.
Proof. unfold setitem. case_decide; [|discriminate]. by intros [= <-]. Qed.

Lemma foldM_app {S A} (body : A → S → result S) l1 l2 s :
  foldM body (l1 ++ l2) s = s' ← foldM body l1 s; foldM body l2 s'.
Proof.
  revert s. induction l1 as [|a l1 IH]; intros s; [done|].
  simpl. destruct (body a s) as [s1|e]; [|done]. rewrite !bind_Ok. apply IH.
Qed.

Lemma for_range_0 {S} (body : nat → S → result S) s : for_range 0 body s = Ok s.
Proof. reflexivity. Qed.

Lemma for_range_S {S} n (body : nat → S → result S) s :
  for_range (Datatypes.S n) body s = s' ← for_range n body s; body n s'.
Proof.
  unfold for_range. rewrite seq_S, foldM_app. simpl.
  destruct (foldM body (seq 0 n) s) as [s1|e]; [|done].
  rewrite !bind_Ok. by destruct (body n s1).
Qed.

(** Total correctness of a counted loop through an invariant. *)
Lemma for_range_inv {S} (P : nat → S → Prop) n (body : nat → S → result S) s :
  P 0 s →
  (∀ i t, i < n → P i t → ∃ t', body i t = Ok t' ∧ P (Datatypes.S i) t') →
  ∃ s', for_range n body s = Ok s' ∧ P n s'.
Proof.
  intros H0 Hstep. induction n as [|n IH]; [by exists s|].
  destruct IH as (s1 & Hs1 & HP); [intros; apply Hstep; [lia|done]|].
  destruct (Hstep n s1) as (s2 & Hs2 & HP2); [lia|done|].
  exists s2. rewrite for_range_S, Hs1, bind_Ok. done.
Qed.

(** Partial correctness: what every completed run of a loop preserves. *)
Lemma foldM_preserves {S A} (Q : S → Prop) (body : A → S → result S) l :
  (∀ a s s', a ∈ l → Q s → body a s = Ok s' → Q s') →
  ∀ s s', Q s → foldM body l s = Ok s' → Q s'.
Proof.
  induction l as [|a l IH]; intros Hb s s' HQ Hrun; simpl in Hrun.
  - by injection Hrun as <-.
  - apply bind_Ok_inv in Hrun as (s1 & H1 & H2).
    eapply IH; [|eapply Hb; [left|done..]|done].
    intros ? ? ? ?. apply Hb. by right.
Qed.

Lemma for_range_preserves {S} (Q : S → Prop) n (body : nat → S → result S) :
  (∀ i s s', i < n → Q s → body i s = Ok s' → Q s') →
  ∀ s s', Q s → for_range n body s = Ok s' → Q s'.
Proof.
  intros Hb. apply foldM_preserves. intros i s s' Hi. apply Hb.
  apply elem_of_seq in Hi. lia.
Qed.

(** A loop that fetches [NBRS[k]] for [k] below [N_NBRS] runs over the
    first [N_NBRS] entries of the list. *)
Lemma for_range_getitem {S} (NBRS : list nat) N (f : nat → S → result S) s :
  N ≤ length NBRS →
  for_range N (λ k s, b ← getitem NBRS k; f b s) s = foldM f (take N NBRS) s.
Proof.
  intros HN. revert s. induction N as [|N IH]; intros s; [done|].
  rewrite for_range_S, IH by lia.
  destruct (lookup_lt_is_Some_2 NBRS N) as [b Hb]; [lia|].
  rewrite (take_S_r _ _ _ Hb), foldM_app. simpl.
  destruct (foldM f (take N NBRS) s) as [s1|e]; [|done].
  rewrite !bind_Ok. rewrite (getitem_Some _ _ _ Hb), bind_Ok.
  by destruct (f b s1).
Qed.

(** ** KernelCorrection *)

Section KernelCorrectionFacts.
Context {F : Type} `{SF : Scalar F}.

Lemma pair_ok_readable (s_m s_rho : list F) p :
  pair_ok s_m s_rho p → pair_readable s_m s_rho p.
Proof. by intros (? & ? & _). Qed.

(** One call of [loop] adds [m_b * WIJ / rho_b] to the entry of the
    destination. *)
Lemma KernelCorrection_loop_Ok d_idx (d_cwij s_m s_rho : list F) p :
  d_idx < length d_cwij → pair_readable s_m s_rho p →
  KernelCorrection.loop d_idx p.1 d_cwij s_m s_rho p.2
  = Ok (<[d_idx := d_cwij !!! d_idx ⊕ f_div (s_m !!! p.1 ⊗ p.2) (s_rho !!! p.1)]> d_cwij).
Proof.
  intros Hd (Hm & Hrho). unfold KernelCorrection.loop.
  rewrite !getitem_lt by done. rewrite !bind_Ok. by apply setitem_lt.
Qed.

Lemma KernelCorrection_loops_Ok d_idx (d_cwij s_m s_rho : list F) pairs :
  d_idx < length d_cwij → Forall (pair_readable s_m s_rho) pairs →
  foldM (λ p c, KernelCorrection.loop d_idx p.1 c s_m s_rho p.2) pairs d_cwij
  = Ok (<[d_idx := fold_left (λ acc p, acc ⊕ f_div (s_m !!! p.1 ⊗ p.2) (s_rho !!! p.1))
                     pairs (d_cwij !!! d_idx)]> d_cwij).
Proof.
  intros Hd Hok. revert d_cwij Hd.
  induction Hok as [|p pairs Hp _ IH]; intros d_cwij Hd; simpl.
  - f_equal. symmetry. apply list_insert_id. by apply list_lookup_lookup_total_lt.
  - rewrite KernelCorrection_loop_Ok, bind_Ok by done.
    rewrite IH by (by rewrite length_insert).
    by rewrite list_lookup_total_insert_eq, list_insert_insert_eq.
Qed.

(** Floats included: the run resets the entry and adds the terms from left
    to right, each computed as the code writes it. *)
Lemma KernelCorrection_run_Ok d_idx (d_cwij s_m s_rho : list F) pairs :
  d_idx < length d_cwij → Forall (pair_readable s_m s_rho) pairs →
  KernelCorrection.run d_idx d_cwij s_m s_rho pairs
  = Ok (<[d_idx := fold_left (λ acc p, acc ⊕ f_div (s_m !!! p.1 ⊗ p.2) (s_rho !!! p.1))
                     pairs f_zero]> d_cwij).
Proof.
  intros Hd Hok. unfold KernelCorrection.run, KernelCorrection.initialize.
  rewrite setitem_lt, bind_Ok by done.
  rewrite KernelCorrection_loops_Ok by (by rewrite ?length_insert).
  by rewrite list_lookup_total_insert_eq, list_insert_insert_eq.
Qed.

End KernelCorrectionFacts.

(** ** Exact arithmetic *)

Lemma R_is_zero_false (b : R) : b ≠ 0%R → R_is_zero b = false.
Proof. unfold R_is_zero. by destruct (Req_dec_T b 0). Qed.

Lemma R_is_zero_false_inv (b : R) : R_is_zero b = false → b ≠ 0%R.
Proof. unfold R_is_zero. by destruct (Req_dec_T b 0). Qed.

Lemma R_le_true_inv (a b : R) : R_le a b = true → (a <= b)%R.
Proof. unfold R_le. by destruct (Rle_dec a b). Qed.

(** The guard [r >= 1.0e-12] excludes a zero divisor, in exact arithmetic
    and in binary64: the division by [r] is never a division by zero. *)
Lemma guard_nonzero_R (r : R) : f_le f_1em12 r = true → f_is_zero r = false.
Proof.
  intros Hr. apply R_le_true_inv in Hr. apply R_is_zero_false.
  simpl in Hr. lra.
Qed.

Lemma guard_nonzero_float (r : float) :
  f_le f_1em12 r = true → f_is_zero r = false.
Proof.
  simpl. rewrite FloatAxioms.leb_spec, FloatAxioms.eqb_spec.
  remember (Prim2SF 0x1.19799812dea11p-40) as lo eqn:Hlo. vm_compute in Hlo. subst lo.
  remember (Prim2SF 0) as z eqn:Hz. vm_compute in Hz. subst z.
  destruct (Prim2SF r) as [s|s| |s m e]; cbn; try congruence; by destruct s.
Qed.

Lemma fold_left_Rplus_shift {A} (g : A → R) (l : list A) (a : R) :
  fold_left (λ acc p, (acc + g p)%R) l a = (a + foldr (λ p acc, (g p + acc)%R) 0%R l)%R.
Proof.
  revert a. induction l as [|p l IH]; intros a; simpl; [lra|].
  rewrite IH. lra.
Qed.

(** In exact arithmetic, with densities that are not zero, the scalar of
    particle [d_idx] is [sum_b (m_b / rho_b) * W_ab]: there the order of
    the product and the quotient, and the order of the terms, do not
    matter. *)
Lemma KernelCorrection_exact_sum (d_idx : nat) (d_cwij s_m s_rho : list R)
    (pairs : list (nat * R)) :
  d_idx < length d_cwij →
  Forall (pair_ok s_m s_rho) pairs →
  KernelCorrection.initialize d_idx d_cwij = Ok (<[d_idx := 0%R]> d_cwij) ∧
  KernelCorrection.run d_idx d_cwij s_m s_rho pairs
  = Ok (<[d_idx := volume_weighted_sum s_m s_rho pairs]> d_cwij).
Proof.
  intros Hd Hok. split.
  - by apply setitem_lt.
  - assert (Forall (pair_readable s_m s_rho) pairs) as Hread
      by (eapply Forall_impl; [exact Hok|apply pair_ok_readable]).
    rewrite KernelCorrection_run_Ok by done. do 2 f_equal.
    change (fold_left (λ acc p, acc + s_m !!! p.1 * p.2 / s_rho !!! p.1) pairs 0
            = volume_weighted_sum s_m s_rho pairs)%R.
    rewrite (fold_left_Rplus_shift (λ p, s_m !!! p.1 * p.2 / s_rho !!! p.1)%R).
    unfold volume_weighted_sum. rewrite Rplus_0_l. clear Hread.
    induction Hok as [|p l Hp _ IH]; simpl; [done|]. rewrite IH.
    destruct Hp as (_ & _ & Hnz). apply R_is_zero_false_inv in Hnz.
    simpl in Hnz. field. done.
Qed.

(** C5, as the code has it.  For the particle [d_idx] processed by the
    kernel-sum normaliser, whatever the scalar type (binary64 included) and
    whatever the values are: [initialize] resets the scalar to [0.0], and
    the run over the neighbours [b] with their kernel values [W_ab] leaves
    the array it was given with the single entry [d_idx] replaced by the
    sum, taken in the order of the neighbours, of the terms
    [(m_b * W_ab) / rho_b]; no other entry is written. *)
Theorem KernelCorrection_cwij_stored {F : Type} `{SF : Scalar F}
    (d_idx : nat) (d_cwij s_m s_rho : list F) (pairs : list (nat * F)) :
  d_idx < length d_cwij →
  Forall (pair_readable s_m s_rho) pairs →
  KernelCorrection.initialize d_idx d_cwij = Ok (<[d_idx := f_zero]> d_cwij) ∧
  KernelCorrection.run d_idx d_cwij s_m s_rho pairs
  = Ok (<[d_idx := stored_sum s_m s_rho pairs]> d_cwij).
Proof.
  intros Hd Hok. split.
  - unfold KernelCorrection.initialize. by apply setitem_lt.
  - unfold stored_sum. by apply KernelCorrection_run_Ok.
Qed.

(** The claim fails as stated.  In binary64 the scalar that the code
    leaves is not the sum of the [(m_b / rho_b) * W_ab]: with [m = 1],
    [rho = 49] and [W = 49] the code stores [(1 * 49) / 49 = 1.0], while
    [(1 / 49) * 49] is the double below [1.0]; with [m = rho = W = 2^665]
    (about 1.5e200) the product overflows and the code stores an infinity,
    while [(m / rho) * W] is [2^665]. *)
Lemma cwij_is_not_the_volume_sum :
  KernelCorrection.run 0 [5%float] [1%float] [49%float] [(0, 49%float)]
    = Ok [1%float] ∧
  volume_sum [1%float] [49%float] [(0, 49%float)] = 0x1.fffffffffffffp-1%float ∧
  KernelCorrection.run 0 [5%float] [1%float] [49%float] [(0, 49%float)]
    ≠ Ok (<[0 := volume_sum [1%float] [49%float] [(0, 49%float)]]> [5%float]) ∧
  KernelCorrection.run 0 [5%float] [0x1p665%float] [0x1p665%float] [(0, 0x1p665%float)]
    = Ok [infinity] ∧
  volume_sum [0x1p665%float] [0x1p665%float] [(0, 0x1p665%float)] = 0x1p665%float.
Proof.
  repeat split; try (vm_compute; reflexivity).
  intros H.
  apply (f_equal (λ r, match r with Ok [x] => PrimFloat.eqb x 1 | _ => false end)) in H.
  vm_compute in H. discriminate.
Qed.

(** ** The accumulation into the moment matrix *)

Section AccumulateFacts.
Context {F : Type} `{SF : Scalar F}.

Lemma vget_lt (v : vec3 F) i : i < 3 → vget v i = Ok (vnth v i).
Proof. unfold vget. intros Hi. by rewrite decide_True. Qed.

Lemma vset_lt (v : vec3 F) i a : i < 3 → vset v i a = Ok (vupd v i a).
Proof. unfold vset. intros Hi. by rewrite decide_True. Qed.

Lemma vec3_eq (u v : vec3 F) : (∀ i, i < 3 → vnth u i = vnth v i) → u = v.
Proof.
  intros H. destruct u as [u0 u1 u2], v as [v0 v1 v2].
  pose proof (H 0 ltac:(lia)). pose proof (H 1 ltac:(lia)). pose proof (H 2 ltac:(lia)).
  simpl in *. congruence.
Qed.

Lemma accumulate_row n a xij dw V r i (m : list F) :
  n ≤ 3 → i < n → 9 * a + 9 ≤ length m →
  ∃ m', for_range n (λ j d_m_mat,
          xj ← vget xij j;
          cur ← getitem d_m_mat (9 * a + 3 * i + j);
          setitem d_m_mat (9 * a + 3 * i + j)
            (cur ⊕ f_div (dw ⊗ V ⊗ vnth xij i ⊗ xj) r)) m = Ok m' ∧
        length m' = length m ∧
        ∀ k, m' !! k =
          if decide (9 * a + 3 * i ≤ k < 9 * a + 3 * i + n)
          then Some (m !!! k ⊕ term xij dw V r i (k - (9 * a + 3 * i)))
          else m !! k.
Proof.
  intros Hn Hi Hlen.
  set (P := λ (j' : nat) (m' : list F), length m' = length m ∧
     ∀ k, m' !! k =
          if decide (9 * a + 3 * i ≤ k < 9 * a + 3 * i + j')
          then Some (m !!! k ⊕ term xij dw V r i (k - (9 * a + 3 * i)))
          else m !! k).
  apply (for_range_inv P); unfold P; clear P.
  - split; [done|]. intros k. rewrite decide_False by lia. done.
  - intros j t Hj (Hlt & Ht).
    rewrite vget_lt, bind_Ok by lia.
    assert (t !! (9 * a + 3 * i + j) = Some (m !!! (9 * a + 3 * i + j))) as Hcur.
    { rewrite Ht, decide_False by lia. apply list_lookup_lookup_total_lt. lia. }
    rewrite (getitem_Some _ _ _ Hcur), bind_Ok.
    rewrite setitem_lt by lia. eexists; split; [done|].
    split; [by rewrite length_insert|].
    intros k. destruct (decide (k = 9 * a + 3 * i + j)) as [->|Hne].
    + rewrite list_lookup_insert_eq by lia. rewrite decide_True by lia.
      replace (9 * a + 3 * i + j - (9 * a + 3 * i)) with j by lia. done.
    + rewrite list_lookup_insert_ne by done. rewrite Ht.
      destruct (decide (9 * a + 3 * i ≤ k < 9 * a + 3 * i + j)).
      * by rewrite decide_True by lia.
      * by rewrite decide_False by lia.
Qed.

Lemma accumulate_Ok n a xij dw V r (m : list F) :
  n ≤ 3 → 9 * a + 9 ≤ length m →
  ∃ m', accumulate n a xij dw V r m = Ok m' ∧ accumulated n a xij dw V r m m'.
Proof.
  intros Hn Hlen. unfold accumulate.
  set (P := λ (i' : nat) (m' : list F), length m' = length m ∧
    (∀ i j, i < i' → j < n →
       m' !! (9 * a + 3 * i + j) = Some (m !!! (9 * a + 3 * i + j) ⊕ term xij dw V r i j)) ∧
    (∀ k, (∀ i j, i < i' → j < n → k ≠ 9 * a + 3 * i + j) → m' !! k = m !! k)).
  apply (for_range_inv P); unfold P; clear P.
  - split; [done|]. split; [intros; lia | done].
  - intros i t Hi (Hlt & Hin & Hout).
    rewrite vget_lt, bind_Ok by lia.
    destruct (accumulate_row n a xij dw V r i t) as (t' & Hrun & Hlt' & Ht');
      [done..|lia|].
    exists t'. split; [done|]. split; [lia|]. split.
    + intros i0 j Hi0 Hj. rewrite Ht'.
      destruct (decide (i0 = i)) as [->|Hne].
      * rewrite decide_True by lia.
        replace (9 * a + 3 * i + j - (9 * a + 3 * i)) with j by lia.
        do 2 f_equal.
        rewrite !list_lookup_total_alt, Hout; [done|]. intros; lia.
      * rewrite decide_False by lia. apply Hin; [lia|done].
    + intros k Hk. rewrite Ht'. rewrite decide_False.
      * apply Hout. intros; apply Hk; lia.
      * intros [H1 H2]. apply (Hk i (k - (9 * a + 3 * i))); lia.
Qed.

(** Every completed accumulation, also with [n] above 3, keeps the length and writes only entries [9a + 3i + j] with
    [i, j < n]. *)
Lemma accumulate_frame n a xij dw V r (m m' : list F) :
  accumulate n a xij dw V r m = Ok m' →
  length m' = length m ∧
  ∀ k, (∀ i j, i < n → j < n → k ≠ 9 * a + 3 * i + j) → m' !! k = m !! k.
Proof.
  unfold accumulate.
  apply (for_range_preserves (λ t, length t = length m ∧
    ∀ k, (∀ i j, i < n → j < n → k ≠ 9 * a + 3 * i + j) → t !! k = m !! k));
    [|done].
  intros i s s' Hi HQ Hrun.
  apply bind_Ok_inv in Hrun as (xi & _ & Hrun). revert Hrun.
  apply (for_range_preserves (λ t, length t = length m ∧
    ∀ k, (∀ i j, i < n → j < n → k ≠ 9 * a + 3 * i + j) → t !! k = m !! k));
    [|done].
  intros j t t' Hj (Hlt & Ht) Hstep.
  apply bind_Ok_inv in Hstep as (xj & _ & Hstep).
  apply bind_Ok_inv in Hstep as (cur & _ & Hstep).
  apply setitem_Ok_inv in Hstep as (_ & ->).
  split; [by rewrite length_insert|].
  intros k Hk. rewrite list_lookup_insert_ne; [by apply Ht|].
  intros <-. by apply (Hk i j).
Qed.

Lemma zero_m_mat_Ok a (m : list F) :
  9 * a + 9 ≤ length m → ∃ m', zero_m_mat a m = Ok m' ∧ zeroed a m m'.
Proof.
  intros Hlen. unfold zero_m_mat.
  destruct (for_range_inv (λ i' m', length m' = length m ∧
    ∀ k, m' !! k = if decide (9 * a ≤ k < 9 * a + i') then Some f_zero else m !! k)
    9 (λ i d_m_mat, setitem d_m_mat (9 * a + i) f_zero) m) as (m' & Hrun & HP).
  - split; [done|]. intros k. by rewrite decide_False by lia.
  - intros i t Hi (Hlt & Ht). rewrite setitem_lt by lia.
    eexists; split; [done|]. split; [by rewrite length_insert|].
    intros k. destruct (decide (k = 9 * a + i)) as [->|Hne].
    + rewrite list_lookup_insert_eq by lia. by rewrite decide_True by lia.
    + rewrite list_lookup_insert_ne by done. rewrite Ht.
      destruct (decide (9 * a ≤ k < 9 * a + i)).
      * by rewrite decide_True by lia.
      * by rewrite decide_False by lia.
  - by exists m'.
Qed.

Lemma zero_m_mat_Ok_inv a (m m' : list F) :
  zero_m_mat a m = Ok m' → 9 * a + 9 ≤ length m ∧ zeroed a m m'.
Proof.
  intros Hrun.
  assert (9 * a + 9 ≤ length m) as Hlen.
  { unfold zero_m_mat in Hrun. rewrite for_range_S in Hrun.
    apply bind_Ok_inv in Hrun as (t & Hpre & Hlast).
    apply setitem_Ok_inv in Hlast as (Hlt & _).
    assert (length t = length m) as <-; [|lia].
    revert Hpre. apply (for_range_preserves (λ t, length t = length m)); [|done].
    intros i s s' _ Hs Hset. apply setitem_Ok_inv in Hset as (_ & ->).
    by rewrite length_insert. }
  split; [done|].
  destruct (zero_m_mat_Ok a m Hlen) as (m2 & Hrun2 & Hz). congruence.
Qed.

End AccumulateFacts.

(** ** The moment-matrix assembler *)

Section AssemblerFacts.
Context {F : Type} `{SF : Scalar F}.
Variables (n a : nat).

Lemma folded_nil dw (m : list F) : 9 * a + 9 ≤ length m → n ≤ 3 → folded n a dw [] m m.
Proof.
  intros Hlen Hn. split; [done|]. split; [|done].
  intros i j Hi Hj. simpl. apply list_lookup_lookup_total_lt. lia.
Qed.

Lemma folded_app dw ss1 ss2 (m m1 m2 : list F) :
  folded n a dw ss1 m m1 → folded n a dw ss2 m1 m2 → folded n a dw (ss1 ++ ss2) m m2.
Proof.
  intros (Hl1 & Hin1 & Hout1) (Hl2 & Hin2 & Hout2).
  split; [congruence|]. split.
  - intros i j Hi Hj. rewrite Hin2, fold_left_app by done. do 2 f_equal.
    rewrite list_lookup_total_alt, Hin1 by done. done.
  - intros k Hk. rewrite Hout2, Hout1 by done. done.
Qed.

Lemma folded_one_of_accumulated dw (s : sample F) (m m' : list F) :
  f_le f_1em12 (sm_r s) = true →
  accumulated n a (sm_xij s) (dw s) (sm_V s) (sm_r s) m m' →
  folded n a dw [s] m m'.
Proof.
  intros Hg (Hl & Hin & Hout). split; [done|]. split; [|done].
  intros i j Hi Hj. rewrite Hin by done. simpl. unfold add_guarded.
  by rewrite Hg.
Qed.

Lemma folded_one_skip dw (s : sample F) (m : list F) :
  9 * a + 9 ≤ length m → n ≤ 3 →
  f_le f_1em12 (sm_r s) = false → folded n a dw [s] m m.
Proof.
  intros Hlen Hn Hg. split; [done|]. split; [|done].
  intros i j Hi Hj. simpl. unfold add_guarded. rewrite Hg.
  apply list_lookup_lookup_total_lt. lia.
Qed.

(** The guarded accumulation of one sample. *)
Lemma guarded_accumulate_Ok dw (s : sample F) (m : list F) :
  n ≤ 3 → 9 * a + 9 ≤ length m →
  ∃ m', (if f_le f_1em12 (sm_r s)
         then accumulate n a (sm_xij s) (dw s) (sm_V s) (sm_r s) m
         else Ok m) = Ok m' ∧ folded n a dw [s] m m'.
Proof.
  intros Hn Hlen. destruct (f_le f_1em12 (sm_r s)) eqn:Hg.
  - destruct (accumulate_Ok n a (sm_xij s) (dw s) (sm_V s) (sm_r s) m)
      as (m' & Hrun & Hacc); [done..|].
    exists m'. split; [done|]. by apply folded_one_of_accumulated.
  - exists m. split; [done|]. by apply folded_one_skip.
Qed.

(** A loop whose every step accumulates the sample of its neighbour
    accumulates the samples of the list.  [mat] projects the matrix out of
    the loop state and [I] is what the rest of the state satisfies. *)
Lemma foldM_folded {S} (mat : S → list F) (I : S → Prop) dw
    (smp : nat → sample F) (step : nat → S → result S) (bs : list nat) :
  n ≤ 3 →
  (∀ b s, b ∈ bs → I s → 9 * a + 9 ≤ length (mat s) →
     ∃ s', step b s = Ok s' ∧ I s' ∧ folded n a dw [smp b] (mat s) (mat s')) →
  ∀ s, I s → 9 * a + 9 ≤ length (mat s) →
    ∃ s', foldM step bs s = Ok s' ∧ I s' ∧ folded n a dw (smp <$> bs) (mat s) (mat s').
Proof.
  intros Hn. induction bs as [|b bs IH]; intros Hstep s HI Hlen.
  - exists s. split; [done|]. split; [done|]. by apply folded_nil.
  - destruct (Hstep b s) as (s1 & H1 & HI1 & Hf1); [by left|done..|].
    destruct (IH (λ b' s' Hb', Hstep b' s' (list_elem_of_further _ _ _ Hb')) s1)
      as (s2 & H2 & HI2 & Hf2); [done|destruct Hf1 as [-> _]; done|].
    exists s2. simpl. rewrite H1, bind_Ok. split; [done|]. split; [done|].
    by apply (folded_app dw [smp b] (smp <$> bs) _ (mat s1)).
Qed.

(** After [initialize], the matrix accumulated from the samples [ss] is the
    matrix of the entries [moment_entry dw i j ss]. *)
Lemma assembled_of_folded dw ss (m0 m1 m2 : list F) :
  n ≤ 3 → 9 * a + 9 ≤ length m0 →
  zeroed a m0 m1 → folded n a dw ss m1 m2 →
  assembled n a (λ i j, moment_entry dw i j ss) m0 m2.
Proof.
  intros Hn Hlen (Hl1 & Hz) (Hl2 & Hin & Hout).
  split; [congruence|]. split.
  - intros i j Hi Hj. case_decide as Hblock.
    + destruct Hblock. rewrite Hin by done. unfold moment_entry. do 2 f_equal.
      rewrite list_lookup_total_alt, Hz, decide_True by lia. done.
    + rewrite Hout, Hz, decide_True by (intros; lia). done.
  - intros k Hk. rewrite Hout, Hz, decide_False by (intros; lia). done.
Qed.

End AssemblerFacts.

Section MomentMatrix.
Context {F : Type} `{SF : Scalar F}.
Variables (n a : nat) (KERNEL : Kernel F) (dst src : particles F).

Lemma neighbours_readable (bs : list nat) :
  Forall (neighbour_ok src) bs → Forall (readable src) bs.
Proof. intros Hok. eapply Forall_impl; [exact Hok|]. by intros b [? _]. Qed.

Lemma GradientCorrectionPreStep_neighbour_Ok (b : nat) (m : list F) :
  n ≤ 3 → 9 * a + 9 ≤ length m → readable src b →
  ∃ m', GradientCorrectionPreStep.neighbour n a
          (p_x dst !!! a) (p_y dst !!! a) (p_z dst !!! a) (p_h dst !!! a)
          (p_m src) (p_rho src) (p_x src) (p_y src) (p_z src) (p_h src)
          KERNEL b m = Ok m' ∧
        folded n a grad_norm [pair_sample KERNEL dst src a b] m m'.
Proof.
  intros Hn Hlen (Hx & Hy & Hz & Hh & Hm & Hrho).
  unfold GradientCorrectionPreStep.neighbour.
  rewrite !getitem_lt by done. rewrite !bind_Ok. cbv beta zeta.
  apply (guarded_accumulate_Ok n a grad_norm (pair_sample KERNEL dst src a b)); done.
Qed.

(** The run of the assembler, whatever the values in the arrays are:
    [initialize] zeroes the nine entries, and [loop_all] accumulates the
    samples of the neighbours in order. *)
Lemma moment_matrix_total (d_m_mat : list F) (NBRS : list nat) (N_NBRS : nat) :
  n ≤ 3 →
  destination_ok dst a d_m_mat →
  N_NBRS ≤ length NBRS →
  Forall (readable src) (take N_NBRS NBRS) →
  ∃ m1 m',
    GradientCorrectionPreStep.initialize a d_m_mat = Ok m1 ∧
    zeroed a d_m_mat m1 ∧
    moment_matrix n KERNEL dst src a d_m_mat NBRS N_NBRS = Ok m' ∧
    folded n a grad_norm (pair_sample KERNEL dst src a <$> take N_NBRS NBRS) m1 m'.
Proof.
  intros Hn (Hx & Hy & Hz & Hh & Hlen) HN Hok.
  destruct (zero_m_mat_Ok a d_m_mat Hlen) as (m1 & Hinit & Hzeroed).
  assert (9 * a + 9 ≤ length m1) as Hlen1 by (destruct Hzeroed as [-> _]; done).
  destruct (foldM_folded n a (λ m : list F, m) (λ _, True) grad_norm
              (pair_sample KERNEL dst src a)
              (GradientCorrectionPreStep.neighbour n a
                 (p_x dst !!! a) (p_y dst !!! a) (p_z dst !!! a) (p_h dst !!! a)
                 (p_m src) (p_rho src) (p_x src) (p_y src) (p_z src) (p_h src) KERNEL)
              (take N_NBRS NBRS) Hn) with (s := m1) as (m' & Hrun & _ & Hfolded);
    [|done..|].
  { intros b m Hb _ Hm.
    destruct (GradientCorrectionPreStep_neighbour_Ok b m) as (m2 & ? & ?); [done..| |].
    - rewrite Forall_forall in Hok. by apply Hok.
    - by exists m2. }
  exists m1, m'. split; [done|]. split; [done|]. split; [|done].
  unfold moment_matrix, GradientCorrectionPreStep.assemble.
  unfold GradientCorrectionPreStep.initialize in *. rewrite Hinit, bind_Ok.
  unfold GradientCorrectionPreStep.loop_all.
  rewrite !getitem_lt by done. rewrite !bind_Ok. cbv zeta.
  rewrite (for_range_getitem NBRS N_NBRS
    (GradientCorrectionPreStep.neighbour n a
               (p_x dst !!! a) (p_y dst !!! a) (p_z dst !!! a) (p_h dst !!! a)
               (p_m src) (p_rho src) (p_x src) (p_y src) (p_z src) (p_h src) KERNEL))
    by done.
  done.
Qed.

Lemma moment_matrix_run (d_m_mat : list F) (NBRS : list nat) (N_NBRS : nat) :
  n ≤ 3 →
  destination_ok dst a d_m_mat →
  N_NBRS ≤ length NBRS →
  Forall (neighbour_ok src) (take N_NBRS NBRS) →
  ∃ m1 m',
    GradientCorrectionPreStep.initialize a d_m_mat = Ok m1 ∧
    zeroed a d_m_mat m1 ∧
    moment_matrix n KERNEL dst src a d_m_mat NBRS N_NBRS = Ok m' ∧
    folded n a grad_norm (pair_sample KERNEL dst src a <$> take N_NBRS NBRS) m1 m'.
Proof.
  intros Hn Hdst HN Hok. apply moment_matrix_total; [done..|].
  by apply neighbours_readable.
Qed.

(** C2. For the particle [a] processed by the moment-matrix assembler
    ([initialize], then [loop_all] over the first [N_NBRS] entries of
    [NBRS]), whenever the arrays can be read and every neighbour has a
    volume [V = m_b / rho_b] (a density that is not zero): the run
    completes; the nine entries of [a] are first reset to zero; and in the
    final matrix the entry [3i + j], for [i, j < dim], is the result of
    passing zero through every neighbour in turn, a neighbour with
    [r >= 1e-12] adding [|grad W_ab| * V * xij[i] * xij[j] / r] and a
    neighbour with [r < 1e-12] leaving the entry exactly as it was (no
    division by [r] is made).  The rest of the 3-by-3 matrix is zero and
    the entries of the other particles are untouched. *)
Theorem moment_matrix_assembled (d_m_mat : list F) (NBRS : list nat) (N_NBRS : nat) :
  n ≤ 3 →
  destination_ok dst a d_m_mat →
  N_NBRS ≤ length NBRS →
  Forall (neighbour_ok src) (take N_NBRS NBRS) →
  ∃ m1 m',
    GradientCorrectionPreStep.initialize a d_m_mat = Ok m1 ∧
    zeroed a d_m_mat m1 ∧
    moment_matrix n KERNEL dst src a d_m_mat NBRS N_NBRS = Ok m' ∧
    assembled n a
      (λ i j, moment_entry grad_norm i j
                (pair_sample KERNEL dst src a <$> take N_NBRS NBRS))
      d_m_mat m'.
Proof.
  intros Hn Hdst HN Hok.
  destruct (moment_matrix_run d_m_mat NBRS N_NBRS Hn Hdst HN Hok)
    as (m1 & m' & Hinit & Hzeroed & Hrun & Hfolded).
  exists m1, m'. split; [done|]. split; [done|]. split; [done|].
  destruct Hdst as (_ & _ & _ & _ & Hlen).
  by apply (assembled_of_folded n a grad_norm _ d_m_mat m1 m').
Qed.

(** A neighbour with [r < 1e-12] contributes nothing: the entries are
    those assembled from the list without such neighbours. *)
Lemma moment_entry_filter (dw : sample F → F) (i j : nat) (ss : list (sample F)) :
  moment_entry dw i j ss
  = fold_left (λ acc s, acc ⊕ contribution (dw s) s i j)
      (filter (λ s, f_le f_1em12 (sm_r s) = true) ss) f_zero.
Proof.
  unfold moment_entry. generalize (f_zero : F).
  induction ss as [|s ss IH]; intros acc; [done|].
  simpl. rewrite filter_cons. unfold add_guarded at 2.
  destruct (f_le f_1em12 (sm_r s)) eqn:Hg.
  - rewrite decide_True by done. simpl. apply IH.
  - rewrite decide_False by congruence. apply IH.
Qed.

End MomentMatrix.

(** ** What the assemblers never write *)

Ltac bind_inv H :=
  repeat (let x := fresh "v" in let E := fresh "E" in
          apply bind_Ok_inv in H as (x & E & H)).

Section Frame.
Context {F : Type} `{SF : Scalar F}.

Lemma same_outside_refl n a (m : list F) : same_outside n a m m.
Proof. by split. Qed.

Lemma same_outside_trans n a (m m1 m2 : list F) :
  same_outside n a m m1 → same_outside n a m1 m2 → same_outside n a m m2.
Proof.
  intros (Hl1 & H1) (Hl2 & H2). split; [congruence|].
  intros k Hk. by rewrite H2, H1.
Qed.

Lemma guarded_accumulate_frame n a xij dw V r (g : bool) (m m' : list F) :
  (if g then accumulate n a xij dw V r m else Ok m) = Ok m' →
  same_outside n a m m'.
Proof.
  destruct g.
  - apply accumulate_frame.
  - intros [= <-]. apply same_outside_refl.
Qed.

Lemma GradientCorrectionPreStep_neighbour_frame n a x y z h
    (s_m s_rho s_x s_y s_z s_h : list F) KERNEL b (m m' : list F) :
  GradientCorrectionPreStep.neighbour n a x y z h s_m s_rho s_x s_y s_z s_h
    KERNEL b m = Ok m' →
  same_outside n a m m'.
Proof.
  unfold GradientCorrectionPreStep.neighbour. intros H. bind_inv H.
  by apply guarded_accumulate_frame in H.
Qed.

Lemma GradientCorrectionPreStep_loop_all_frame n a
    (d_m_mat s_m s_rho d_x d_y d_z d_h s_x s_y s_z s_h : list F)
    KERNEL NBRS N_NBRS (m' : list F) :
  GradientCorrectionPreStep.loop_all n a d_m_mat s_m s_rho d_x d_y d_z d_h
    s_x s_y s_z s_h KERNEL NBRS N_NBRS = Ok m' →
  same_outside n a d_m_mat m'.
Proof.
  unfold GradientCorrectionPreStep.loop_all. intros H. bind_inv H. revert H.
  apply (for_range_preserves (same_outside n a d_m_mat));
    [|apply same_outside_refl].
  intros k s s' _ Hs Hstep.
  apply bind_Ok_inv in Hstep as (b & _ & Hstep).
  apply GradientCorrectionPreStep_neighbour_frame in Hstep.
  by apply (same_outside_trans n a _ s).
Qed.

Lemma pass2_neighbour_frame n a x y z h
    (s_m s_rho s_x s_y s_z s_h : list F) KERNEL numerator den b
    (st st' : vec3 F * list F) :
  MixedKernelCorrectionPreStep.pass2_neighbour n a x y z h s_m s_rho
    s_x s_y s_z s_h KERNEL numerator den b st = Ok st' →
  same_outside n a st.2 st'.2.
Proof.
  unfold MixedKernelCorrectionPreStep.pass2_neighbour.
  destruct st as [dwij1 m]. intros H.
  apply bind_Ok_inv in H as (sx & _ & H).
  apply bind_Ok_inv in H as (sy & _ & H).
  apply bind_Ok_inv in H as (sz & _ & H).
  apply bind_Ok_inv in H as (sh & _ & H). cbv zeta in H.
  apply bind_Ok_inv in H as (dwij1' & _ & H).
  apply bind_Ok_inv in H as (mb & _ & H).
  apply bind_Ok_inv in H as (rho & _ & H). cbv zeta in H.
  apply bind_Ok_inv in H as (m2 & Hacc & H).
  injection H as <-. simpl. by apply guarded_accumulate_frame in Hacc.
Qed.

Lemma MixedKernelCorrectionPreStep_loop_all_frame n a
    (d_x d_y d_z d_h s_x s_y s_z s_h : list F) KERNEL N_NBRS NBRS
    (d_m_mat s_m s_rho d_cwij m' c' : list F) :
  MixedKernelCorrectionPreStep.loop_all n a d_x d_y d_z d_h s_x s_y s_z s_h
    KERNEL N_NBRS NBRS d_m_mat s_m s_rho d_cwij = Ok (m', c') →
  same_outside n a d_m_mat m'.
Proof.
  unfold MixedKernelCorrectionPreStep.loop_all. intros H.
  apply bind_Ok_inv in H as (x & _ & H).
  apply bind_Ok_inv in H as (y & _ & H).
  apply bind_Ok_inv in H as (z & _ & H).
  apply bind_Ok_inv in H as (h & _ & H). cbv zeta in H.
  apply bind_Ok_inv in H as ([numerator dwij1] & _ & H).
  apply bind_Ok_inv in H as ([den numerator'] & _ & H).
  apply bind_Ok_inv in H as (c1 & _ & H).
  apply bind_Ok_inv in H as ([dwij1' m2] & Hpass2 & H).
  injection H as <- <-. revert Hpass2.
  change m2 with (dwij1', m2).2. generalize (dwij1', m2).
  intros st1.
  apply (for_range_preserves (λ st : vec3 F * list F, same_outside n a d_m_mat st.2));
    [|apply same_outside_refl].
  intros k s s' _ Hs Hstep.
  apply bind_Ok_inv in Hstep as (b & _ & Hstep).
  apply pass2_neighbour_frame in Hstep.
  by apply (same_outside_trans n a _ s.2).
Qed.

Lemma zero_beyond_of_frame n a (m0 m1 m' : list F) :
  zeroed a m0 m1 → same_outside n a m1 m' → zero_beyond n a m'.
Proof.
  intros (_ & Hz) (_ & Hout) i j Hi Hj Hn.
  rewrite Hout, Hz, decide_True by (intros; lia). done.
Qed.

End Frame.

(** C6. For every neighbour configuration and both assemblers: in the
    matrix that a completed assembly ([initialize], then [loop_all]) leaves
    for its particle, every entry whose row or column index is at least
    [dim] is exactly zero; with [dim = 2] these are the flattened indices
    2, 5, 6, 7 and 8. *)
Theorem m_mat_zero_beyond_dim {F : Type} `{SF : Scalar F}
    (dim : nat) (KERNEL : Kernel F) (dst src : particles F) (a : nat)
    (d_m_mat d_cwij : list F) (NBRS : list nat) (N_NBRS : nat) (m' : list F) :
  moment_matrix dim KERNEL dst src a d_m_mat NBRS N_NBRS = Ok m' ∨
  (∃ c', mixed_matrix dim KERNEL dst src a d_m_mat d_cwij NBRS N_NBRS = Ok (m', c')) →
  zero_beyond dim a m' ∧
  (dim = 2 → Forall (λ k, m' !! (9 * a + k) = Some f_zero) [2; 5; 6; 7; 8]).
Proof.
  intros Hrun.
  assert (zero_beyond dim a m') as Hzero.
  { destruct Hrun as [Hrun|[c' Hrun]].
    - unfold moment_matrix, GradientCorrectionPreStep.assemble in Hrun.
      apply bind_Ok_inv in Hrun as (m1 & Hinit & Hrun).
      apply zero_m_mat_Ok_inv in Hinit as (_ & Hz).
      apply GradientCorrectionPreStep_loop_all_frame in Hrun.
      by apply (zero_beyond_of_frame dim a d_m_mat m1).
    - unfold mixed_matrix, MixedKernelCorrectionPreStep.assemble in Hrun.
      apply bind_Ok_inv in Hrun as (m1 & Hinit & Hrun).
      apply zero_m_mat_Ok_inv in Hinit as (_ & Hz).
      apply MixedKernelCorrectionPreStep_loop_all_frame in Hrun.
      by apply (zero_beyond_of_frame dim a d_m_mat m1). }
  split; [done|]. intros ->.
  pose proof (Hzero 0 2) as H2. pose proof (Hzero 1 2) as H5.
  pose proof (Hzero 2 0) as H6. pose proof (Hzero 2 1) as H7.
  pose proof (Hzero 2 2) as H8.
  replace (9 * a + 3 * 0 + 2) with (9 * a + 2) in H2 by lia.
  replace (9 * a + 3 * 1 + 2) with (9 * a + 5) in H5 by lia.
  replace (9 * a + 3 * 2 + 0) with (9 * a + 6) in H6 by lia.
  replace (9 * a + 3 * 2 + 1) with (9 * a + 7) in H7 by lia.
  replace (9 * a + 3 * 2 + 2) with (9 * a + 8) in H8 by lia.
  repeat constructor; [apply H2|apply H5|apply H6|apply H7|apply H8]; lia.
Qed.

(** ** The gradient corrector *)

(** A loop whose body cannot fail on the states it meets is a fold. *)
Lemma for_range_pure {S} (P : S → Prop) n (body : nat → S → result S)
    (g : S → nat → S) s :
  P s →
  (∀ i t, i < n → P t → body i t = Ok (g t i) ∧ P (g t i)) →
  for_range n body s = Ok (foldl g s (seq 0 n)) ∧ P (foldl g s (seq 0 n)).
Proof.
  intros Hs Hstep. induction n as [|n IH]; [done|].
  destruct IH as [Hrun HP]; [intros; apply Hstep; [lia|done]|].
  rewrite for_range_S, Hrun, bind_Ok, seq_S, foldl_app. simpl.
  apply Hstep; [lia|done].
Qed.

Section Corrector.
Context {F : Type} `{SF : Scalar F}.

Lemma copy_block_Ok n a (d_m_mat : list F) :
  n ≤ 3 → 9 * a + 9 ≤ length d_m_mat →
  for_range n (λ i temp,
    for_range n (λ j temp,
      v ← getitem d_m_mat (9 * a + 3 * i + j);
      setitem temp (n * i + j) v) temp) (replicate 9 f_zero)
  = Ok (leading_block n a d_m_mat).
Proof.
  intros Hn Hlen. unfold leading_block.
  apply (for_range_pure (λ t : list F, length t = 9)); [done|].
  intros i t Hi Ht.
  apply (for_range_pure (λ t : list F, length t = 9)); [done|].
  intros j u Hj Hu.
  rewrite getitem_lt, bind_Ok by lia.
  rewrite setitem_lt by nia. by rewrite length_insert.
Qed.

(** [leading_block] holds entry [(i, j)] of the matrix at [n * i + j]. *)
Lemma leading_block_lookup n a (d_m_mat : list F) i j :
  n ≤ 3 → i < n → j < n →
  leading_block n a d_m_mat !! (n * i + j) = Some (d_m_mat !!! (9 * a + 3 * i + j)).
Proof.
  intros Hn Hi Hj.
  destruct n as [|[|[|[|?]]]]; [lia| | |  |lia];
    destruct i as [|[|[|?]]]; try lia;
    destruct j as [|[|[|?]]]; try lia; reflexivity.
Qed.

Lemma relative_change_Ok n (DWIJ x : vec3 F) (HIJ : F) :
  n ≤ 3 →
  for_range n (λ i change,
    a ← vget DWIJ i;
    b ← vget x i;
    Ok (change ⊕ f_div (f_abs (a ⊖ b)) (f_abs a ⊕ f_1em4 ⊗ HIJ))) f_zero
  = Ok (relative_change n DWIJ x HIJ).
Proof.
  intros Hn. unfold relative_change.
  apply (for_range_pure (λ _, True)); [done|].
  intros i t Hi _. split; [|done].
  rewrite !vget_lt, !bind_Ok by lia. done.
Qed.

Lemma overwrite_Ok n (d_m_mat : list F) (DWIJ x : vec3 F) :
  n ≤ 3 →
  for_range n (λ i st,
    b ← vget x i;
    DWIJ ← vset (GradientCorrection.a_DWIJ st) i b;
    Ok (GradientCorrection.Arrays (GradientCorrection.a_m_mat st) DWIJ))
    (GradientCorrection.Arrays d_m_mat DWIJ)
  = Ok (GradientCorrection.Arrays d_m_mat (overwrite n DWIJ x)).
Proof.
  intros Hn. destruct DWIJ, x.
  destruct n as [|[|[|[|?]]]]; [reflexivity..|lia].
Qed.

Lemma overwrite_component n (DWIJ x : vec3 F) i :
  i < 3 → vnth (overwrite n DWIJ x) i = if decide (i < n) then vnth x i else vnth DWIJ i.
Proof. intros Hi. by destruct i as [|[|[|?]]]; [..|lia]. Qed.

End Corrector.

(** C1. For every pair processed by [GradientCorrection.loop] (with
    [dim <= 3], the nine entries of the destination readable, and every
    denominator [|DWIJ[i]| + 1e-4 * HIJ], [i < dim], of the relative
    change different from zero, so that [delta] is defined): with [x] the
    result of the solver on the leading [dim]-by-[dim] block and [DWIJ],
    and [delta] the sum over [i < dim] of
    [|DWIJ[i] - x[i]| / (|DWIJ[i]| + 1e-4 * HIJ)], the call returns without
    raising; if [delta <= tol] the components [i < dim] of [DWIJ] have been
    overwritten with [x[i]], and otherwise [DWIJ] is exactly as it was. *)
Theorem gradient_correction_decision {F : Type} `{SF : Scalar F}
    (dim : nat) (tol : F) (gj_solve : GradientCorrection.solver F)
    (d_idx : nat) (d_m_mat : list F) (DWIJ : vec3 F) (HIJ : F) :
  dim ≤ 3 →
  9 * d_idx + 9 ≤ length d_m_mat →
  (∀ i, i < dim → f_is_zero (f_abs (vnth DWIJ i) ⊕ f_1em4 ⊗ HIJ) = false) →
  let x := gj_solve (leading_block dim d_idx d_m_mat) DWIJ dim vzero in
  let delta := relative_change dim DWIJ x HIJ in
  GradientCorrection.loop dim tol gj_solve d_idx d_m_mat DWIJ HIJ
  = Ok (GradientCorrection.Arrays d_m_mat
          (if f_le delta tol then overwrite dim DWIJ x else DWIJ)).
Proof.
  intros Hn Hlen Hnz x delta. unfold GradientCorrection.loop. cbv zeta.
  cbn [GradientCorrection.a_m_mat GradientCorrection.a_DWIJ].
  rewrite copy_block_Ok, bind_Ok by done.
  rewrite relative_change_Ok, bind_Ok by done.
  fold x. fold delta. destruct (f_le delta tol); [|done].
  by apply overwrite_Ok.
Qed.

(** C8. Whatever branch [GradientCorrection.loop] takes, the matrix array
    [d_m_mat] is, when the call returns, the array that was passed in. *)
Theorem gradient_correction_keeps_m_mat {F : Type} `{SF : Scalar F}
    (dim : nat) (tol : F) (gj_solve : GradientCorrection.solver F)
    (d_idx : nat) (d_m_mat : list F) (DWIJ : vec3 F) (HIJ : F)
    (out : GradientCorrection.arrays F) :
  GradientCorrection.loop dim tol gj_solve d_idx d_m_mat DWIJ HIJ = Ok out →
  GradientCorrection.a_m_mat out = d_m_mat.
Proof.
  unfold GradientCorrection.loop. cbv zeta. intros H.
  apply bind_Ok_inv in H as (temp & _ & H).
  apply bind_Ok_inv in H as (change & _ & H).
  destruct (f_le change tol); [|by injection H as <-].
  revert H.
  apply (for_range_preserves
           (λ st : GradientCorrection.arrays F, GradientCorrection.a_m_mat st = d_m_mat));
    [|done].
  intros i st st' _ Hst Hstep.
  apply bind_Ok_inv in Hstep as (b & _ & Hstep).
  apply bind_Ok_inv in Hstep as (DWIJ' & _ & Hstep).
  by injection Hstep as <-.
Qed.

(** ** The mixed assembler *)

Section Mixed.
Context {F : Type} `{SF : Scalar F}.
Variables (n a : nat) (KERNEL : Kernel F) (dst src : particles F).

Abbreviation x := (p_x dst !!! a).
Abbreviation y := (p_y dst !!! a).
Abbreviation z := (p_z dst !!! a).
Abbreviation h := (p_h dst !!! a).
Abbreviation smp := (pair_sample KERNEL dst src a).

(** [numerator[i] += V * dwij[i]] for [i < n] *)
Lemma add_scaled_Ok (V : F) (g num : vec3 F) :
  n ≤ 3 →
  ∃ num', for_range n (λ i numerator,
            cur ← vget numerator i;
            gi ← vget g i;
            vset numerator i (cur ⊕ V ⊗ gi)) num = Ok num' ∧
          ∀ i, i < 3 →
            vnth num' i = if decide (i < n) then vnth num i ⊕ V ⊗ vnth g i
                          else vnth num i.
Proof.
  intros Hn. destruct num as [n0 n1 n2], g as [g0 g1 g2].
  destruct n as [|[|[|[|?]]]]; [..|lia];
    (eexists; split; [reflexivity|]);
    intros [|[|[|?]]] Hi; try lia; reflexivity.
Qed.

Lemma pass1_neighbour_Ok (b : nat) (den : F) (num : vec3 F) :
  n ≤ 3 → readable src b →
  ∃ num',
    MixedKernelCorrectionPreStep.pass1_neighbour n x y z h
      (p_m src) (p_rho src) (p_x src) (p_y src) (p_z src) (p_h src)
      KERNEL b (den, num)
    = Ok (den ⊕ sm_V (smp b) ⊗ sm_wij (smp b), num') ∧
    ∀ i, i < 3 →
      vnth num' i = if decide (i < n)
                    then vnth num i ⊕ sm_V (smp b) ⊗ vnth (sm_dwij (smp b)) i
                    else vnth num i.
Proof.
  intros Hn (Hx & Hy & Hz & Hh & Hm & Hrho).
  unfold MixedKernelCorrectionPreStep.pass1_neighbour.
  rewrite !getitem_lt by done. rewrite !bind_Ok. cbv beta zeta.
  destruct (add_scaled_Ok (sm_V (smp b)) (sm_dwij (smp b)) num Hn)
    as (num' & Hrun & Hnum').
  exists num'. split; [|done].
  cbn [pair_sample sm_V sm_dwij sm_wij sm_xij sm_r] in Hrun |- *.
  rewrite Hrun. done.
Qed.

Lemma pass1_Ok (bs : list nat) (den : F) (num : vec3 F) :
  n ≤ 3 → Forall (readable src) bs →
  ∃ num',
    foldM (MixedKernelCorrectionPreStep.pass1_neighbour n x y z h
             (p_m src) (p_rho src) (p_x src) (p_y src) (p_z src) (p_h src) KERNEL)
      bs (den, num)
    = Ok (fold_left (λ acc s, acc ⊕ sm_V s ⊗ sm_wij s) (smp <$> bs) den, num') ∧
    ∀ i, i < 3 →
      vnth num' i
      = if decide (i < n)
        then fold_left (λ acc s, acc ⊕ sm_V s ⊗ vnth (sm_dwij s) i) (smp <$> bs) (vnth num i)
        else vnth num i.
Proof.
  intros Hn Hok. revert den num.
  induction Hok as [|b bs Hb _ IH]; intros den num.
  - exists num. split; [done|]. intros i Hi. by case_decide.
  - destruct (pass1_neighbour_Ok b den num Hn Hb) as (num1 & H1 & Hnum1).
    destruct (IH (den ⊕ sm_V (smp b) ⊗ sm_wij (smp b)) num1) as (num2 & H2 & Hnum2).
    exists num2. rewrite fmap_cons. cbn [foldM fold_left].
    rewrite H1, bind_Ok. split; [done|].
    intros i Hi. rewrite Hnum2, Hnum1 by done. by case_decide.
Qed.

(** [dwij1[i] = (dwij[i] - numerator[i] / den) / den] for [i < n] *)
Lemma debias_Ok (g num dwij1 : vec3 F) (den : F) :
  n ≤ 3 →
  (∀ i, n ≤ i → i < 3 → vnth dwij1 i = f_zero) →
  for_range n (λ i dwij1,
    gi ← vget g i;
    nu ← vget num i;
    vset dwij1 i (f_div (gi ⊖ f_div nu den) den)) dwij1
  = Ok (debiased n (vnth num) den g).
Proof.
  intros Hn Hzero.
  destruct (for_range_pure (λ _, True) n
    (λ i dwij1, gi ← vget g i; nu ← vget num i;
       vset dwij1 i (f_div (gi ⊖ f_div nu den) den))
    (λ d i, vupd d i (f_div (vnth g i ⊖ f_div (vnth num i) den) den)) dwij1)
    as [-> _]; [done| |].
  { intros i t Hi _. split; [|done].
    rewrite !vget_lt, !bind_Ok by lia.
    apply vset_lt. lia. }
  f_equal. apply vec3_eq. intros i Hi.
  pose proof (Hzero 0) as H0. pose proof (Hzero 1) as H1. pose proof (Hzero 2) as H2.
  destruct dwij1 as [d0 d1 d2]. simpl in H0, H1, H2.
  destruct n as [|[|[|[|?]]]]; [..|lia];
    destruct i as [|[|[|?]]]; try lia; simpl;
    rewrite ?H0, ?H1, ?H2 by lia; reflexivity.
Qed.

Lemma debiased_zero_beyond (num : nat → F) (den : F) (g : vec3 F) i :
  n ≤ i → i < 3 → vnth (debiased n num den g) i = f_zero.
Proof.
  intros Hn Hi. destruct i as [|[|[|?]]]; [..|lia]; simpl;
    unfold debiased_component; by rewrite decide_False by lia.
Qed.

Lemma debiased_ext (num num' : nat → F) (den : F) (g : vec3 F) :
  (∀ i, i < n → num i = num' i) → debiased n num den g = debiased n num' den g.
Proof.
  intros Hnum. unfold debiased, debiased_component.
  f_equal; case_decide; try done; by rewrite Hnum.
Qed.

Lemma pass2_neighbour_Ok (num : vec3 F) (den : F) (b : nat) (dwij1 : vec3 F) (m : list F) :
  n ≤ 3 → 9 * a + 9 ≤ length m → readable src b →
  (∀ i, n ≤ i → i < 3 → vnth dwij1 i = f_zero) →
  ∃ m',
    MixedKernelCorrectionPreStep.pass2_neighbour n a x y z h
      (p_m src) (p_rho src) (p_x src) (p_y src) (p_z src) (p_h src)
      KERNEL num den b (dwij1, m)
    = Ok (debiased n (vnth num) den (sm_dwij (smp b)), m') ∧
    folded n a (λ s, vnorm (debiased n (vnth num) den (sm_dwij s))) [smp b] m m'.
Proof.
  intros Hn Hlen (Hx & Hy & Hz & Hh & Hm & Hrho) Hzero.
  unfold MixedKernelCorrectionPreStep.pass2_neighbour.
  rewrite !getitem_lt by done. rewrite !bind_Ok. cbv beta zeta.
  rewrite (debias_Ok _ num dwij1 den Hn Hzero). rewrite !bind_Ok. cbv beta zeta.
  destruct (guarded_accumulate_Ok n a
    (λ s, vnorm (debiased n (vnth num) den (sm_dwij s))) (smp b) m Hn Hlen)
    as (m' & Hrun & Hfolded).
  exists m'. split; [|done].
  cbn [pair_sample sm_V sm_dwij sm_wij sm_xij sm_r] in Hrun |- *.
  rewrite Hrun. done.
Qed.

End Mixed.

Section MixedAssembled.
Context {F : Type} `{SF : Scalar F}.
Variables (n a : nat) (KERNEL : Kernel F) (dst src : particles F).

Lemma init_locals :
  for_range 3 (λ i (st : vec3 F * vec3 F),
    numerator ← vset st.1 i f_zero;
    dwij1 ← vset st.2 i f_zero;
    Ok (numerator, dwij1)) (vzero, vzero)
  = Ok (vzero, vzero).
Proof. reflexivity. Qed.

Lemma folded_ext (dw dw' : sample F → F) ss (m m' : list F) :
  (∀ s, dw s = dw' s) → folded n a dw ss m m' → folded n a dw' ss m m'.
Proof.
  intros Hdw (Hl & Hin & Hout). split; [done|]. split; [|done].
  intros i j Hi Hj. rewrite Hin by done. f_equal.
  generalize (m !!! (9 * a + 3 * i + j)). clear Hl Hin Hout.
  induction ss as [|s ss IH]; intros acc; [done|].
  simpl. rewrite <- IH. unfold add_guarded. by rewrite Hdw.
Qed.

(** The run of the mixed assembler, whatever the values in the arrays
    are: pass 1 leaves [den = kernel_sum ss] and a [numerator] whose first
    [n] components are the gradient sums; pass 2 accumulates the samples
    with the norm of the gradient debiased by them. *)
Lemma mixed_matrix_total (d_m_mat d_cwij : list F) (NBRS : list nat) (N_NBRS : nat) :
  let ss := pair_sample KERNEL dst src a <$> take N_NBRS NBRS in
  n ≤ 3 →
  destination_ok dst a d_m_mat →
  a < length d_cwij →
  N_NBRS ≤ length NBRS →
  Forall (readable src) (take N_NBRS NBRS) →
  ∃ m1 num m',
    zeroed a d_m_mat m1 ∧
    (∀ i, i < n → vnth num i = gradient_sum i ss) ∧
    mixed_matrix n KERNEL dst src a d_m_mat d_cwij NBRS N_NBRS
    = Ok (m', <[a := kernel_sum ss]> d_cwij) ∧
    folded n a (λ s, vnorm (debiased n (vnth num) (kernel_sum ss) (sm_dwij s)))
      ss m1 m'.
Proof.
  intros ss Hn (Hx & Hy & Hz & Hh & Hlen) Hc HN Hok.
  destruct (zero_m_mat_Ok a d_m_mat Hlen) as (m1 & Hinit & Hzeroed).
  assert (9 * a + 9 ≤ length m1) as Hlen1 by (destruct Hzeroed as [-> _]; done).
  destruct (pass1_Ok n a KERNEL dst src (take N_NBRS NBRS) f_zero vzero Hn Hok)
    as (num & Hpass1 & Hnum).
  fold ss in Hpass1, Hnum. fold (kernel_sum ss) in Hpass1.
  set (dw := λ s : sample F, vnorm (debiased n (vnth num) (kernel_sum ss) (sm_dwij s))).
  destruct (foldM_folded n a (λ st : vec3 F * list F, st.2)
              (λ st, ∀ i, n ≤ i → i < 3 → vnth st.1 i = f_zero) dw
              (pair_sample KERNEL dst src a)
              (MixedKernelCorrectionPreStep.pass2_neighbour n a
                 (p_x dst !!! a) (p_y dst !!! a) (p_z dst !!! a) (p_h dst !!! a)
                 (p_m src) (p_rho src) (p_x src) (p_y src) (p_z src) (p_h src)
                 KERNEL num (kernel_sum ss))
              (take N_NBRS NBRS) Hn) with (s := (vzero : vec3 F, m1))
    as ([dwij1 m'] & Hpass2 & _ & Hfolded); [|by intros [|[|[|?]]]|done|].
  { intros b [d m] Hb Hd Hm. simpl in Hd, Hm.
    destruct (pass2_neighbour_Ok n a KERNEL dst src num (kernel_sum ss) b d m)
      as (m2 & Hstep & Hf); [done..| |done|].
    - rewrite Forall_forall in Hok. by apply Hok.
    - eexists. split; [exact Hstep|]. split; [|done].
      intros i Hi1 Hi2. by apply debiased_zero_beyond. }
  simpl in Hfolded. exists m1, num, m'. split; [done|]. split; [|split; [|done]].
  - intros i Hi. rewrite Hnum by lia. rewrite decide_True by done.
    unfold gradient_sum. by destruct i as [|[|?]].
  - unfold mixed_matrix, MixedKernelCorrectionPreStep.assemble.
    unfold MixedKernelCorrectionPreStep.initialize. rewrite Hinit, bind_Ok.
    unfold MixedKernelCorrectionPreStep.loop_all.
    rewrite !getitem_lt by done. rewrite !bind_Ok. cbv zeta.
    rewrite init_locals, bind_Ok.
    rewrite (for_range_getitem NBRS N_NBRS
      (MixedKernelCorrectionPreStep.pass1_neighbour n
         (p_x dst !!! a) (p_y dst !!! a) (p_z dst !!! a) (p_h dst !!! a)
         (p_m src) (p_rho src) (p_x src) (p_y src) (p_z src) (p_h src) KERNEL))
      by done.
    rewrite Hpass1, bind_Ok. rewrite setitem_lt, bind_Ok by done.
    rewrite (for_range_getitem NBRS N_NBRS
      (MixedKernelCorrectionPreStep.pass2_neighbour n a
         (p_x dst !!! a) (p_y dst !!! a) (p_z dst !!! a) (p_h dst !!! a)
         (p_m src) (p_rho src) (p_x src) (p_y src) (p_z src) (p_h src)
         KERNEL num (kernel_sum ss))) by done.
    rewrite Hpass2, bind_Ok. done.
Qed.

Lemma mixed_matrix_run (d_m_mat d_cwij : list F) (NBRS : list nat) (N_NBRS : nat) :
  let ss := pair_sample KERNEL dst src a <$> take N_NBRS NBRS in
  n ≤ 3 →
  destination_ok dst a d_m_mat →
  a < length d_cwij →
  N_NBRS ≤ length NBRS →
  Forall (neighbour_ok src) (take N_NBRS NBRS) →
  n = 0 ∨ N_NBRS = 0 ∨ f_is_zero (kernel_sum ss) = false →
  ∃ m1 num m',
    zeroed a d_m_mat m1 ∧
    (∀ i, i < n → vnth num i = gradient_sum i ss) ∧
    mixed_matrix n KERNEL dst src a d_m_mat d_cwij NBRS N_NBRS
    = Ok (m', <[a := kernel_sum ss]> d_cwij) ∧
    folded n a (λ s, vnorm (debiased n (vnth num) (kernel_sum ss) (sm_dwij s)))
      ss m1 m'.
Proof.
  intros ss Hn Hdst Hc HN Hok _. apply mixed_matrix_total; [done..|].
  by apply neighbours_readable.
Qed.

(** C3. For the particle [a] processed by the mixed assembler over the
    first [N_NBRS] entries of [NBRS] (arrays readable, densities not zero,
    and [den] not zero unless there is nothing to divide): pass 1 computes
    [den = sum_b V_b * W_ab] and [numerator[i] = sum_b V_b * grad W_ab[i]]
    for [i < dim], and [d_cwij[a]] is set to [den]; pass 2 accumulates for
    each neighbour the moment-matrix formula with the norm of the debiased
    gradient [(grad W_ab[i] - numerator[i] / den) / den] in place of
    [|grad W_ab|], under the same guard [r >= 1e-12]. *)
Theorem mixed_matrix_assembled (d_m_mat d_cwij : list F) (NBRS : list nat)
    (N_NBRS : nat) :
  let ss := pair_sample KERNEL dst src a <$> take N_NBRS NBRS in
  n ≤ 3 →
  destination_ok dst a d_m_mat →
  a < length d_cwij →
  N_NBRS ≤ length NBRS →
  Forall (neighbour_ok src) (take N_NBRS NBRS) →
  n = 0 ∨ N_NBRS = 0 ∨ f_is_zero (kernel_sum ss) = false →
  ∃ m',
    mixed_matrix n KERNEL dst src a d_m_mat d_cwij NBRS N_NBRS
    = Ok (m', <[a := kernel_sum ss]> d_cwij) ∧
    assembled n a (λ i j, moment_entry (debiased_norm n ss) i j ss) d_m_mat m'.
Proof.
  intros ss Hn Hdst Hc HN Hok Hden.
  destruct (mixed_matrix_run d_m_mat d_cwij NBRS N_NBRS Hn Hdst Hc HN Hok Hden)
    as (m1 & num & m' & Hzeroed & Hnum & Hrun & Hfolded).
  exists m'. split; [done|].
  destruct Hdst as (_ & _ & _ & _ & Hlen).
  apply (assembled_of_folded n a _ _ d_m_mat m1 m'); [done..|].
  apply (folded_ext _ (debiased_norm n ss)) in Hfolded; [done|].
  intros s. unfold debiased_norm. f_equal. by apply debiased_ext.
Qed.

End MixedAssembled.

(** C10. With an empty neighbour list ([N_NBRS = 0]) the mixed assembler
    completes, for every [dim] and without dividing: [d_cwij[a]] is set to
    [0.0] and the nine entries of [a] in [d_m_mat] are zero; the body of
    the second loop, which divides by [den], is never run. *)
Theorem mixed_matrix_no_neighbours {F : Type} `{SF : Scalar F}
    (dim : nat) (KERNEL : Kernel F) (dst src : particles F) (a : nat)
    (d_m_mat d_cwij : list F) (NBRS : list nat) :
  destination_ok dst a d_m_mat →
  a < length d_cwij →
  ∃ m', mixed_matrix dim KERNEL dst src a d_m_mat d_cwij NBRS 0
        = Ok (m', <[a := f_zero]> d_cwij) ∧
        zeroed a d_m_mat m'.
Proof.
  intros (Hx & Hy & Hz & Hh & Hlen) Hc.
  destruct (zero_m_mat_Ok a d_m_mat Hlen) as (m1 & Hinit & Hzeroed).
  exists m1. split; [|done].
  unfold mixed_matrix, MixedKernelCorrectionPreStep.assemble.
  unfold MixedKernelCorrectionPreStep.initialize. rewrite Hinit, bind_Ok.
  unfold MixedKernelCorrectionPreStep.loop_all.
  rewrite !getitem_lt by done. rewrite !bind_Ok. cbv zeta.
  rewrite init_locals, bind_Ok. rewrite !for_range_0, bind_Ok.
  rewrite setitem_lt by done. done.
Qed.

(** The pairs handed to [KernelCorrection.loop] for readable neighbours
    can be read. *)
Lemma kernel_pairs_readable {F : Type} `{SF : Scalar F} (KERNEL : Kernel F)
    (dst src : particles F) (a : nat) (bs : list nat) :
  Forall (readable src) bs →
  Forall (pair_readable (p_m src) (p_rho src)) (kernel_pairs KERNEL dst src a bs).
Proof.
  intros Hok. apply Forall_fmap. eapply Forall_impl; [exact Hok|].
  intros b (_ & _ & _ & _ & Hm & Hrho). by split.
Qed.

Lemma kernel_pairs_ok {F : Type} `{SF : Scalar F} (KERNEL : Kernel F)
    (dst src : particles F) (a : nat) (bs : list nat) :
  Forall (neighbour_ok src) bs →
  Forall (pair_readable (p_m src) (p_rho src)) (kernel_pairs KERNEL dst src a bs).
Proof.
  intros Hok. apply kernel_pairs_readable.
  eapply Forall_impl; [exact Hok|]. by intros b [? _].
Qed.

(** ** Divisions *)


(** In exact arithmetic a positive [HIJ] makes the denominators of the
    relative change positive. *)
Lemma positive_HIJ_denominator (d HIJ : R) :
  (0 < HIJ)%R → f_is_zero (f_abs d ⊕ f_1em4 ⊗ HIJ) = false.
Proof.
  intros HH. apply R_is_zero_false. simpl. pose proof (Rabs_pos d). lra.
Qed.


(** ** The order of the neighbours, in exact arithmetic *)

Lemma add_guarded_R (dw : sample R → R) i j (acc : R) (s : sample R) :
  add_guarded dw i j acc s = (acc + add_guarded dw i j 0%R s)%R.
Proof. unfold add_guarded. destruct (f_le f_1em12 (sm_r s)); simpl; lra. Qed.

Lemma Rsum_permutation {A} (g : A → R) (l l' : list A) :
  l ≡ₚ l' → foldr (λ s t, (g s + t)%R) 0%R l = foldr (λ s t, (g s + t)%R) 0%R l'.
Proof. induction 1; simpl; [done|congruence|lra|congruence]. Qed.

Lemma fold_left_add_guarded_R (dw : sample R → R) i j (ss : list (sample R)) (acc : R) :
  fold_left (add_guarded dw i j) ss acc
  = (acc + foldr (λ s t, (add_guarded dw i j 0%R s + t)%R) 0%R ss)%R.
Proof.
  revert acc. induction ss as [|s ss IH]; intros acc; simpl; [lra|].
  rewrite IH, (add_guarded_R dw i j acc s). lra.
Qed.

Lemma fold_left_add_guarded_permutation (dw : sample R → R) i j
    (ss ss' : list (sample R)) (acc : R) :
  ss ≡ₚ ss' →
  fold_left (add_guarded dw i j) ss acc = fold_left (add_guarded dw i j) ss' acc.
Proof.
  intros Hp. rewrite !fold_left_add_guarded_R.
  by rewrite (Rsum_permutation (add_guarded dw i j 0%R) ss ss').
Qed.

(** An index is in the leading block of [a] or it is not. *)
Lemma block_index_dec (n a k : nat) :
  (∃ i j, i < n ∧ j < n ∧ k = 9 * a + 3 * i + j) ∨
  (∀ i j, i < n → j < n → k ≠ 9 * a + 3 * i + j).
Proof.
  destruct (decide (Exists (λ i, Exists (λ j, k = 9 * a + 3 * i + j) (seq 0 n))
                      (seq 0 n))) as [H|H].
  - left. apply Exists_exists in H as (i & Hi & H).
    apply Exists_exists in H as (j & Hj & ->).
    apply elem_of_seq in Hi, Hj. exists i, j. lia.
  - right. intros i j Hi Hj ->. apply H.
    apply Exists_exists. exists i. split; [apply elem_of_seq; lia|].
    apply Exists_exists. exists j. split; [apply elem_of_seq; lia|done].
Qed.

Lemma folded_permutation (n a : nat) (dw : sample R → R)
    (ss ss' : list (sample R)) (m m1 m2 : list R) :
  ss ≡ₚ ss' → folded n a dw ss m m1 → folded n a dw ss' m m2 → m1 = m2.
Proof.
  intros Hp (Hl1 & Hin1 & Hout1) (Hl2 & Hin2 & Hout2).
  apply list_eq. intros k.
  destruct (block_index_dec n a k) as [(i & j & Hi & Hj & ->)|Hk].
  - rewrite Hin1, Hin2 by done. f_equal.
    by apply fold_left_add_guarded_permutation.
  - by rewrite Hout1, Hout2.
Qed.

(** C7. In exact arithmetic, for every list of neighbours that can be
    processed and every permutation of it, the kernel-sum normaliser leaves
    the same [d_cwij] and the moment-matrix assembler the same [d_m_mat]
    on the permuted list as on the original one. *)
Theorem neighbour_order_irrelevant (dim : nat) (KERNEL : Kernel R)
    (dst src : particles R) (a : nat) (d_m_mat d_cwij : list R)
    (NBRS NBRS' : list nat) (N_NBRS N_NBRS' : nat) :
  dim ≤ 3 →
  destination_ok dst a d_m_mat →
  a < length d_cwij →
  N_NBRS ≤ length NBRS →
  N_NBRS' ≤ length NBRS' →
  Forall (neighbour_ok src) (take N_NBRS NBRS) →
  take N_NBRS NBRS ≡ₚ take N_NBRS' NBRS' →
  ∃ c m,
    KernelCorrection.run a d_cwij (p_m src) (p_rho src)
      (kernel_pairs KERNEL dst src a (take N_NBRS NBRS)) = Ok c ∧
    KernelCorrection.run a d_cwij (p_m src) (p_rho src)
      (kernel_pairs KERNEL dst src a (take N_NBRS' NBRS')) = Ok c ∧
    moment_matrix dim KERNEL dst src a d_m_mat NBRS N_NBRS = Ok m ∧
    moment_matrix dim KERNEL dst src a d_m_mat NBRS' N_NBRS' = Ok m.
Proof.
  intros Hn Hdst Hc HN HN' Hok Hperm.
  assert (Forall (neighbour_ok src) (take N_NBRS' NBRS')) as Hok'
    by (by rewrite <- Hperm).
  destruct (moment_matrix_run dim a KERNEL dst src d_m_mat NBRS N_NBRS)
    as (m1 & m & Hinit & _ & Hrun & Hfolded); [done..|].
  destruct (moment_matrix_run dim a KERNEL dst src d_m_mat NBRS' N_NBRS')
    as (m1' & m' & Hinit' & _ & Hrun' & Hfolded'); [done..|].
  assert (m1' = m1) as -> by congruence.
  assert (m' = m) as ->.
  { symmetry. eapply folded_permutation; [|exact Hfolded|exact Hfolded'].
    by apply fmap_Permutation. }
  eexists _, m. split; [|split; [|done]].
  - apply KernelCorrection_run_Ok; [done|by apply kernel_pairs_ok].
  - rewrite KernelCorrection_run_Ok by (done || by apply kernel_pairs_ok).
    do 2 f_equal.
    rewrite !(fold_left_Rplus_shift
      (λ p, f_div (p_m src !!! p.1 ⊗ p.2) (p_rho src !!! p.1))).
    f_equal. apply Rsum_permutation. unfold kernel_pairs.
    apply fmap_Permutation. by symmetry.
Qed.

(** In binary64 the order does matter: [2^60 + 1] rounds to [2^60]. *)
Lemma float_sum_depends_on_order :
  KernelCorrection.run 0 [0%float] [1; 1; 1]%float [1; 1; 1]%float
    [(0, 0x1p60%float); (1, 1%float); (2, (-0x1p60)%float)] = Ok [0%float] ∧
  KernelCorrection.run 0 [0%float] [1; 1; 1]%float [1; 1; 1]%float
    [(0, 0x1p60%float); (2, (-0x1p60)%float); (1, 1%float)] = Ok [1%float].
Proof. split; vm_compute; reflexivity. Qed.

(** ** The worked example *)

(** The pair [(a, b)] of the worked example: [xij = (-1, 0, 0)], [r = 1] and
    [hij = 1]. *)
Lemma worked_example_sample (K : Kernel float) :
  pair_sample K two_particles two_particles 0 1
  = {| sm_xij := Vec3 (-1) 0 0; sm_r := 1;
       sm_dwij := gradient K (Vec3 (-1) 0 0) 1 1;
       sm_wij := kernel K (Vec3 (-1) 0 0) 1 1; sm_V := 1 |}%float.
Proof. reflexivity. Qed.

(** C9, as the code has it.  In the worked example the neighbour [b] is
    at distance exactly 1, on the edge of the support.  For every kernel
    whose gradient at that pair is [-xij] (the stated formula extended to
    [r = 1]), the assembler run on [a] with [dim = 2], over the neighbour
    [b] alone or over [a] and [b], whatever [d_m_mat] held before, yields
    [m_mat[0] = 1.0], [m_mat[4] = 0] and zero in the cross terms (indeed in
    every other entry). *)
Theorem worked_example_m_mat (K : Kernel float) (d_m_mat : list float)
    (NBRS : list nat) :
  gradient K (Vec3 (-1) 0 0)%float 1%float 1%float = vneg (Vec3 (-1) 0 0)%float →
  length d_m_mat = 9 →
  NBRS = [1] ∨ NBRS = [0; 1] ∨ NBRS = [1; 0] →
  moment_matrix 2 K two_particles two_particles 0 d_m_mat NBRS (length NBRS)
  = Ok [1; 0; 0; 0; 0; 0; 0; 0; 0]%float.
Proof.
  intros HK Hlen HN.
  do 10 (destruct d_m_mat as [|? d_m_mat]; try discriminate Hlen). clear Hlen.
  vm_compute in HK.
  destruct HN as [->|[->| ->]]; vm_compute; rewrite HK; vm_compute; reflexivity.
Qed.

(** The claim fails as stated: the test kernel, whose gradient is [-xij]
    inside the support [r < 1] and zero outside, gives [m_mat[0] = 0], not
    1.0, because [b] is not inside the support. *)
Lemma worked_example_edge_of_support :
  (∀ xij r h, (r <? 1)%float = true → gradient test_kernel xij r h = vneg xij) ∧
  (∀ xij r h, kernel test_kernel xij r h = max0 (1 - r)%float) ∧
  ∃ m', moment_matrix 2 test_kernel two_particles two_particles 0
          (replicate 9 0%float) [0; 1] 2 = Ok m' ∧
        m' !! 0 = Some 0%float ∧ m' !! 0 ≠ Some 1%float.
Proof.
  split; [|split].
  - intros xij r h Hr. simpl. by rewrite Hr.
  - done.
  - eexists. split; [vm_compute; reflexivity|]. split; [reflexivity|].
    intros H. apply (f_equal (λ o, match o with
                                   | Some v => PrimFloat.eqb v 0%float
                                   | None => false end)) in H.
    vm_compute in H. discriminate H.
Qed.

(** ** The theorems at concrete inputs *)

Ltac check_inputs :=
  repeat constructor; simpl; try lia; try (vm_compute; reflexivity).

Lemma KernelCorrection_cwij_stored_witness :
  KernelCorrection.initialize 0 [5; 7]%float = Ok [0; 7]%float ∧
  KernelCorrection.run 0 [5; 7]%float [2; 3]%float [4; 6]%float
    [(0, 1%float); (1, 2%float)]
  = Ok [1.5; 7]%float.
Proof.
  refine (KernelCorrection_cwij_stored 0 [5; 7]%float [2; 3]%float [4; 6]%float
            [(0, 1%float); (1, 2%float)] _ _); check_inputs.
Defined.

Lemma gradient_correction_decision_witness :
  GradientCorrection.loop 2 0.5%float diagonal_solver 0
    [1.25; 0; 0; 0; 1.25; 0; 0; 0; 0]%float (Vec3 1 2 0)%float 1%float
  = Ok (GradientCorrection.Arrays [1.25; 0; 0; 0; 1.25; 0; 0; 0; 0]%float
          (Vec3 (1 / 1.25) (2 / 1.25) 0)%float) ∧
  GradientCorrection.loop 2 0.5%float diagonal_solver 0
    [0.5; 0; 0; 0; 0.5; 0; 0; 0; 0]%float (Vec3 1 2 0)%float 1%float
  = Ok (GradientCorrection.Arrays [0.5; 0; 0; 0; 0.5; 0; 0; 0; 0]%float
          (Vec3 1 2 0)%float).
Proof.
  split.
  - exact (gradient_correction_decision 2 0.5%float diagonal_solver 0
             [1.25; 0; 0; 0; 1.25; 0; 0; 0; 0]%float (Vec3 1 2 0)%float 1%float
             ltac:(lia) ltac:(simpl; lia)
             ltac:(intros [|[|?]] ?; [reflexivity..|lia])).
  - exact (gradient_correction_decision 2 0.5%float diagonal_solver 0
             [0.5; 0; 0; 0; 0.5; 0; 0; 0; 0]%float (Vec3 1 2 0)%float 1%float
             ltac:(lia) ltac:(simpl; lia)
             ltac:(intros [|[|?]] ?; [reflexivity..|lia])).
Defined.

Lemma moment_matrix_assembled_witness :
  ∃ m1 m',
    GradientCorrectionPreStep.initialize 0 (replicate 9 5%float) = Ok m1 ∧
    zeroed 0 (replicate 9 5%float) m1 ∧
    moment_matrix 2 test_kernel_closed three_particles three_particles 0
      (replicate 9 5%float) [0; 1; 2; 7] 3 = Ok m' ∧
    assembled 2 0
      (λ i j, moment_entry grad_norm i j
                (pair_sample test_kernel_closed three_particles three_particles 0
                   <$> take 3 [0; 1; 2; 7]))
      (replicate 9 5%float) m'.
Proof.
  apply (moment_matrix_assembled 2 0 test_kernel_closed three_particles
           three_particles (replicate 9 5%float) [0; 1; 2; 7] 3); check_inputs.
Defined.

Lemma mixed_matrix_assembled_witness :
  ∃ m',
    mixed_matrix 2 test_kernel_closed three_particles three_particles 0
      (replicate 9 5%float) [5; 5; 5]%float [0; 1; 2; 7] 3
    = Ok (m', <[0 := kernel_sum
                       (pair_sample test_kernel_closed three_particles
                          three_particles 0 <$> take 3 [0; 1; 2; 7])]>
                [5; 5; 5]%float) ∧
    assembled 2 0
      (λ i j,
         moment_entry
           (debiased_norm 2
              (pair_sample test_kernel_closed three_particles three_particles 0
                 <$> take 3 [0; 1; 2; 7])) i j
           (pair_sample test_kernel_closed three_particles three_particles 0
              <$> take 3 [0; 1; 2; 7]))
      (replicate 9 5%float) m'.
Proof.
  apply (mixed_matrix_assembled 2 0 test_kernel_closed three_particles
           three_particles (replicate 9 5%float) [5; 5; 5]%float [0; 1; 2; 7] 3);
    [check_inputs..|].
  right. right. vm_compute. reflexivity.
Defined.


Lemma m_mat_zero_beyond_dim_witness :
  (∃ m', moment_matrix 2 test_kernel_closed three_particles three_particles 0
           (replicate 9 5%float) [0; 1; 2; 7] 3 = Ok m' ∧
         zero_beyond 2 0 m' ∧
         Forall (λ k, m' !! (9 * 0 + k) = Some 0%float) [2; 5; 6; 7; 8]) ∧
  (∃ m' c', mixed_matrix 2 test_kernel_closed three_particles three_particles 0
              (replicate 9 5%float) [5; 5; 5]%float [0; 1; 2; 7] 3 = Ok (m', c') ∧
            zero_beyond 2 0 m' ∧
            Forall (λ k, m' !! (9 * 0 + k) = Some 0%float) [2; 5; 6; 7; 8]).
Proof.
  split.
  - eexists. split; [vm_compute; reflexivity|].
    edestruct (m_mat_zero_beyond_dim 2 test_kernel_closed three_particles
                 three_particles 0 (replicate 9 5%float) [5; 5; 5]%float
                 [0; 1; 2; 7] 3) as [H1 H2].
    + left. vm_compute. reflexivity.
    + split; [exact H1|exact (H2 eq_refl)].
  - do 2 eexists. split; [vm_compute; reflexivity|].
    edestruct (m_mat_zero_beyond_dim 2 test_kernel_closed three_particles
                 three_particles 0 (replicate 9 5%float) [5; 5; 5]%float
                 [0; 1; 2; 7] 3) as [H1 H2].
    + right. eexists. vm_compute. reflexivity.
    + split; [exact H1|exact (H2 eq_refl)].
Defined.

Lemma gradient_correction_keeps_m_mat_witness :
  (∃ out, GradientCorrection.loop 2 0.5%float diagonal_solver 0
            [1.25; 0; 0; 0; 1.25; 0; 0; 0; 0]%float (Vec3 1 2 0)%float 1%float
          = Ok out ∧
          GradientCorrection.a_DWIJ out = (Vec3 (1 / 1.25) (2 / 1.25) 0)%float ∧
          GradientCorrection.a_m_mat out = [1.25; 0; 0; 0; 1.25; 0; 0; 0; 0]%float) ∧
  (∃ out, GradientCorrection.loop 2 0.5%float diagonal_solver 0
            [0.5; 0; 0; 0; 0.5; 0; 0; 0; 0]%float (Vec3 1 2 0)%float 1%float
          = Ok out ∧
          GradientCorrection.a_DWIJ out = (Vec3 1 2 0)%float ∧
          GradientCorrection.a_m_mat out = [0.5; 0; 0; 0; 0.5; 0; 0; 0; 0]%float).
Proof.
  split; eexists; (split; [vm_compute; reflexivity|]); (split; [reflexivity|]).
  - apply (gradient_correction_keeps_m_mat 2 0.5%float diagonal_solver 0
             [1.25; 0; 0; 0; 1.25; 0; 0; 0; 0]%float (Vec3 1 2 0)%float 1%float).
    vm_compute. reflexivity.
  - apply (gradient_correction_keeps_m_mat 2 0.5%float diagonal_solver 0
             [0.5; 0; 0; 0; 0.5; 0; 0; 0; 0]%float (Vec3 1 2 0)%float 1%float).
    vm_compute. reflexivity.
Defined.

Lemma worked_example_m_mat_witness :
  moment_matrix 2 test_kernel_closed two_particles two_particles 0
    (replicate 9 5%float) [0; 1] 2
  = Ok [1; 0; 0; 0; 0; 0; 0; 0; 0]%float.
Proof.
  apply (worked_example_m_mat test_kernel_closed (replicate 9 5%float) [0; 1]).
  - vm_compute. reflexivity.
  - reflexivity.
  - right. left. reflexivity.
Defined.

Lemma mixed_matrix_no_neighbours_witness :
  ∃ m', mixed_matrix 2 test_kernel three_particles three_particles 1
          (replicate 27 5%float) [5; 5; 5]%float [0; 1; 2] 0
        = Ok (m', [5; 0; 5]%float) ∧
        zeroed 1 (replicate 27 5%float) m'.
Proof.
  refine (mixed_matrix_no_neighbours 2 test_kernel three_particles three_particles
            1 (replicate 27 5%float) [5; 5; 5]%float [0; 1; 2] _ _); check_inputs.
Defined.

Lemma neighbour_order_irrelevant_witness :
  ∃ c m,
    KernelCorrection.run 0 [5%R; 5%R] (p_m two_particles_R) (p_rho two_particles_R)
      (kernel_pairs linear_kernel two_particles_R two_particles_R 0 (take 2 [0; 1]))
    = Ok c ∧
    KernelCorrection.run 0 [5%R; 5%R] (p_m two_particles_R) (p_rho two_particles_R)
      (kernel_pairs linear_kernel two_particles_R two_particles_R 0 (take 2 [1; 0; 0]))
    = Ok c ∧
    moment_matrix 2 linear_kernel two_particles_R two_particles_R 0
      (replicate 9 5%R) [0; 1] 2 = Ok m ∧
    moment_matrix 2 linear_kernel two_particles_R two_particles_R 0
      (replicate 9 5%R) [1; 0; 0] 2 = Ok m.
Proof.
  apply (neighbour_order_irrelevant 2 linear_kernel two_particles_R two_particles_R
           0 (replicate 9 5%R) [5%R; 5%R] [0; 1] [1; 0; 0] 2 2).
  - lia.
  - repeat split; simpl; lia.
  - simpl; lia.
  - simpl; lia.
  - simpl; lia.
  - repeat constructor; simpl; try lia; apply R_is_zero_false; simpl; lra.
  - simpl. apply perm_swap.
Defined.

(** * Further properties of the code *)

(** ** Loops, once more *)

Lemma for_range_last {S} n (body : nat → S → result S) s s' :
  for_range (Datatypes.S n) body s = Ok s' →
  ∃ t, for_range n body s = Ok t ∧ body n t = Ok s'.
Proof. rewrite for_range_S. apply bind_Ok_inv. Qed.

(** A loop raises only what its body raises. *)
Lemma foldM_raises {S A} (E : exn → Prop) (body : A → S → result S) l :
  (∀ a s e, a ∈ l → body a s = Raise e → E e) →
  ∀ s e, foldM body l s = Raise e → E e.
Proof.
  induction l as [|a l IH]; intros Hb s e Hrun; simpl in Hrun; [discriminate|].
  destruct (body a s) as [s1|e1] eqn:Ha.
  - rewrite bind_Ok in Hrun. eapply IH; [|exact Hrun].
    intros ? ? ? ?. apply Hb. by right.
  - injection Hrun as <-. eapply Hb; [left|exact Ha].
Qed.

Lemma foldM_ext {S A} (body body' : A → S → result S) l s :
  (∀ a t, a ∈ l → body a t = body' a t) → foldM body l s = foldM body' l s.
Proof.
  revert s. induction l as [|a l IH]; intros s Hb; [done|].
  simpl. rewrite (Hb a s) by left. destruct (body' a s); [|done].
  rewrite !bind_Ok. apply IH. intros ? ? ?. apply Hb. by right.
Qed.

Lemma for_range_ext {S} n (body body' : nat → S → result S) s :
  (∀ k t, k < n → body k t = body' k t) → for_range n body s = for_range n body' s.
Proof.
  intros Hb. apply foldM_ext. intros k t Hk. apply Hb.
  apply elem_of_seq in Hk. lia.
Qed.

Lemma foldM_cons_Raise {S A} (body : A → S → result S) a l s e :
  body a s = Raise e → foldM body (a :: l) s = Raise e.
Proof. intros H. simpl. by rewrite H. Qed.

Lemma foldM_app_Raise {S A} (body : A → S → result S) l1 a l2 s s1 e :
  foldM body l1 s = Ok s1 → body a s1 = Raise e →
  foldM body (l1 ++ a :: l2) s = Raise e.
Proof.
  intros H1 Ha. rewrite foldM_app, H1, bind_Ok. by apply foldM_cons_Raise.
Qed.

Lemma vnth_vupd_other {F : Type} `{SF : Scalar F} (v : vec3 F) i j c :
  i < 3 → j < 3 → i ≠ j → vnth (vupd v i c) j = vnth v j.
Proof.
  intros Hi Hj Hne.
  destruct i as [|[|[|?]]], j as [|[|[|?]]]; simpl; try done; lia.
Qed.

(** The nine entries of a particle are its 3-by-3 matrix. *)
Lemma slot_index (a k : nat) :
  9 * a ≤ k < 9 * a + 9 → ∃ i j, i < 3 ∧ j < 3 ∧ k = 9 * a + 3 * i + j.
Proof.
  intros Hk. assert (∃ d, d < 9 ∧ k = 9 * a + d) as (d & Hd & ->)
    by (exists (k - 9 * a); lia).
  destruct d as [|[|[|[|[|[|[|[|[|?]]]]]]]]];
    [exists 0, 0|exists 0, 1|exists 0, 2|exists 1, 0|exists 1, 1|exists 1, 2
    |exists 2, 0|exists 2, 1|exists 2, 2|]; lia.
Qed.

(** ** An assembly writes the slot of its particle only *)

Section Locality.
Context {F : Type} `{SF : Scalar F}.

Lemma isolated_refl a (m : list F) : isolated a m m.
Proof. by split. Qed.

Lemma isolated_trans a (m m1 m2 : list F) :
  isolated a m m1 → isolated a m1 m2 → isolated a m m2.
Proof.
  intros (Hl1 & H1) (Hl2 & H2). split; [congruence|].
  intros k Hk. by rewrite H2, H1.
Qed.

(** The accumulation reads [xij[n - 1]]: it completes for [n <= 3] only. *)
Lemma accumulate_Ok_dim n a xij dw V r (m m' : list F) :
  accumulate n a xij dw V r m = Ok m' → n ≤ 3.
Proof.
  unfold accumulate. destruct n as [|n]; [lia|]. intros H.
  apply for_range_last in H as (t & _ & H).
  apply bind_Ok_inv in H as (xi & Hxi & _).
  unfold vget in Hxi. case_decide; [lia|discriminate].
Qed.

Lemma guarded_accumulate_isolated n a xij dw V r (g : bool) (m m' : list F) :
  (if g then accumulate n a xij dw V r m else Ok m) = Ok m' → isolated a m m'.
Proof.
  destruct g; [|intros [= <-]; apply isolated_refl].
  intros H. pose proof (accumulate_Ok_dim _ _ _ _ _ _ _ _ H) as Hn.
  apply accumulate_frame in H as (Hl & Hout). split; [done|].
  intros k Hk. apply Hout. intros; lia.
Qed.

Lemma zeroed_isolated a (m m' : list F) : zeroed a m m' → isolated a m m'.
Proof.
  intros (Hl & Hz). split; [done|]. intros k Hk.
  rewrite Hz, decide_False by lia. done.
Qed.

Lemma GradientCorrectionPreStep_loop_all_isolated n a
    (d_m_mat s_m s_rho d_x d_y d_z d_h s_x s_y s_z s_h : list F)
    KERNEL NBRS N_NBRS (m' : list F) :
  GradientCorrectionPreStep.loop_all n a d_m_mat s_m s_rho d_x d_y d_z d_h
    s_x s_y s_z s_h KERNEL NBRS N_NBRS = Ok m' →
  isolated a d_m_mat m'.
Proof.
  unfold GradientCorrectionPreStep.loop_all. intros H. bind_inv H. revert H.
  apply (for_range_preserves (isolated a d_m_mat)); [|apply isolated_refl].
  intros k s s' _ Hs Hstep.
  apply bind_Ok_inv in Hstep as (b & _ & Hstep).
  unfold GradientCorrectionPreStep.neighbour in Hstep. bind_inv Hstep.
  apply guarded_accumulate_isolated in Hstep.
  by apply (isolated_trans a _ s).
Qed.

Lemma MixedKernelCorrectionPreStep_loop_all_isolated n a
    (d_x d_y d_z d_h s_x s_y s_z s_h : list F) KERNEL N_NBRS NBRS
    (d_m_mat s_m s_rho d_cwij m' c' : list F) :
  MixedKernelCorrectionPreStep.loop_all n a d_x d_y d_z d_h s_x s_y s_z s_h
    KERNEL N_NBRS NBRS d_m_mat s_m s_rho d_cwij = Ok (m', c') →
  isolated a d_m_mat m' ∧
  a < length d_cwij ∧ ∃ den, c' = <[a := den]> d_cwij.
Proof.
  unfold MixedKernelCorrectionPreStep.loop_all. intros H.
  apply bind_Ok_inv in H as (x & _ & H).
  apply bind_Ok_inv in H as (y & _ & H).
  apply bind_Ok_inv in H as (z & _ & H).
  apply bind_Ok_inv in H as (h & _ & H). cbv zeta in H.
  apply bind_Ok_inv in H as ([numerator dwij1] & _ & H).
  apply bind_Ok_inv in H as ([den numerator'] & _ & H).
  apply bind_Ok_inv in H as (c1 & Hset & H).
  apply bind_Ok_inv in H as ([dwij1' m2] & Hpass2 & H).
  injection H as <- <-. apply setitem_Ok_inv in Hset as (Ha & ->).
  split; [|split; [done|by exists den]].
  revert Hpass2. change m2 with (dwij1', m2).2. generalize (dwij1', m2).
  intros st1.
  apply (for_range_preserves (λ st : vec3 F * list F, isolated a d_m_mat st.2));
    [|apply isolated_refl].
  intros k [d1 s] [d2 s'] _ Hs Hstep. simpl in *.
  apply bind_Ok_inv in Hstep as (b & _ & Hstep).
  unfold MixedKernelCorrectionPreStep.pass2_neighbour in Hstep.
  apply bind_Ok_inv in Hstep as (sx & _ & Hstep).
  apply bind_Ok_inv in Hstep as (sy & _ & Hstep).
  apply bind_Ok_inv in Hstep as (sz & _ & Hstep).
  apply bind_Ok_inv in Hstep as (sh & _ & Hstep). cbv zeta in Hstep.
  apply bind_Ok_inv in Hstep as (dw1 & _ & Hstep).
  apply bind_Ok_inv in Hstep as (mb & _ & Hstep).
  apply bind_Ok_inv in Hstep as (rho & _ & Hstep). cbv zeta in Hstep.
  apply bind_Ok_inv in Hstep as (m3 & Hacc & Hstep).
  injection Hstep as <- <-.
  apply guarded_accumulate_isolated in Hacc.
  by apply (isolated_trans a _ s).
Qed.

End Locality.

(** X1. Whatever [dim], the kernel and the neighbours are, a completed
    assembly of particle [a] by either assembler keeps the length of
    [d_m_mat] and leaves every entry outside the nine of [a] as it was. *)
Theorem assembly_writes_own_slot {F : Type} `{SF : Scalar F}
    (dim : nat) (KERNEL : Kernel F) (dst src : particles F) (a : nat)
    (d_m_mat d_cwij : list F) (NBRS : list nat) (N_NBRS : nat) (m' : list F) :
  moment_matrix dim KERNEL dst src a d_m_mat NBRS N_NBRS = Ok m' ∨
  (∃ c', mixed_matrix dim KERNEL dst src a d_m_mat d_cwij NBRS N_NBRS = Ok (m', c')) →
  isolated a d_m_mat m'.
Proof.
  intros [Hrun|[c' Hrun]].
  - unfold moment_matrix, GradientCorrectionPreStep.assemble in Hrun.
    apply bind_Ok_inv in Hrun as (m1 & Hinit & Hrun).
    apply zero_m_mat_Ok_inv in Hinit as (_ & Hz).
    apply GradientCorrectionPreStep_loop_all_isolated in Hrun.
    apply (isolated_trans a _ m1); [by apply zeroed_isolated|done].
  - unfold mixed_matrix, MixedKernelCorrectionPreStep.assemble in Hrun.
    apply bind_Ok_inv in Hrun as (m1 & Hinit & Hrun).
    apply zero_m_mat_Ok_inv in Hinit as (_ & Hz).
    apply MixedKernelCorrectionPreStep_loop_all_isolated in Hrun as (Hiso & _).
    apply (isolated_trans a _ m1); [by apply zeroed_isolated|done].
Qed.

(** X2. A completed run of the mixed assembler for particle [a] changes
    [d_cwij] at index [a] only: the array it leaves is the one it was given
    with that single entry replaced. *)
Theorem mixed_writes_own_cwij {F : Type} `{SF : Scalar F}
    (dim : nat) (KERNEL : Kernel F) (dst src : particles F) (a : nat)
    (d_m_mat d_cwij : list F) (NBRS : list nat) (N_NBRS : nat)
    (m' c' : list F) :
  mixed_matrix dim KERNEL dst src a d_m_mat d_cwij NBRS N_NBRS = Ok (m', c') →
  a < length d_cwij ∧ length c' = length d_cwij ∧
  ∀ k, k ≠ a → c' !! k = d_cwij !! k.
Proof.
  intros Hrun.
  unfold mixed_matrix, MixedKernelCorrectionPreStep.assemble in Hrun.
  apply bind_Ok_inv in Hrun as (m1 & _ & Hrun).
  apply MixedKernelCorrectionPreStep_loop_all_isolated in Hrun
    as (_ & Ha & den & ->).
  split; [done|]. split; [by rewrite length_insert|].
  intros k Hk. by rewrite list_lookup_insert_ne.
Qed.

(** ** Assemblies recompute and do not interfere *)

Section Reassembly.
Context {F : Type} `{SF : Scalar F}.

Lemma assembled_unique n a (entry : nat → nat → F) (m0 m0' m m' : list F) :
  length m0' = length m0 →
  (∀ k, k < 9 * a ∨ 9 * a + 9 ≤ k → m0' !! k = m0 !! k) →
  assembled n a entry m0 m → assembled n a entry m0' m' → m = m'.
Proof.
  intros Hlen Hagree (Hl & Hin & Hout) (Hl' & Hin' & Hout').
  apply list_eq. intros k.
  destruct (decide (9 * a ≤ k < 9 * a + 9)) as [Hk|Hk].
  - apply slot_index in Hk as (i & j & Hi & Hj & ->).
    by rewrite Hin, Hin'.
  - rewrite Hout, Hout', Hagree by lia. done.
Qed.

Lemma moment_matrix_entries n a KERNEL (dst src : particles F)
    (d_m_mat : list F) NBRS N_NBRS :
  n ≤ 3 →
  destination_ok dst a d_m_mat →
  N_NBRS ≤ length NBRS →
  Forall (neighbour_ok src) (take N_NBRS NBRS) →
  ∃ m', moment_matrix n KERNEL dst src a d_m_mat NBRS N_NBRS = Ok m' ∧
        assembled n a
          (λ i j, moment_entry grad_norm i j
                    (pair_sample KERNEL dst src a <$> take N_NBRS NBRS))
          d_m_mat m'.
Proof.
  intros Hn Hdst HN Hok.
  destruct (moment_matrix_run n a KERNEL dst src d_m_mat NBRS N_NBRS Hn Hdst HN Hok)
    as (m1 & m' & _ & Hzeroed & Hrun & Hfolded).
  exists m'. split; [done|]. destruct Hdst as (_ & _ & _ & _ & Hlen).
  by apply (assembled_of_folded n a grad_norm _ d_m_mat m1 m').
Qed.

Lemma mixed_matrix_entries n a KERNEL (dst src : particles F)
    (d_m_mat d_cwij : list F) NBRS N_NBRS :
  let ss := pair_sample KERNEL dst src a <$> take N_NBRS NBRS in
  n ≤ 3 →
  destination_ok dst a d_m_mat →
  a < length d_cwij →
  N_NBRS ≤ length NBRS →
  Forall (neighbour_ok src) (take N_NBRS NBRS) →
  n = 0 ∨ N_NBRS = 0 ∨ f_is_zero (kernel_sum ss) = false →
  ∃ m', mixed_matrix n KERNEL dst src a d_m_mat d_cwij NBRS N_NBRS
        = Ok (m', <[a := kernel_sum ss]> d_cwij) ∧
        assembled n a (λ i j, moment_entry (debiased_norm n ss) i j ss) d_m_mat m'.
Proof.
  intros ss Hn Hdst Hc HN Hok Hden.
  destruct (mixed_matrix_run n a KERNEL dst src d_m_mat d_cwij NBRS N_NBRS
              Hn Hdst Hc HN Hok Hden)
    as (m1 & num & m' & Hzeroed & Hnum & Hrun & Hfolded).
  exists m'. split; [done|]. destruct Hdst as (_ & _ & _ & _ & Hlen).
  apply (assembled_of_folded n a _ _ d_m_mat m1 m'); [done..|].
  apply (folded_ext n a _ (debiased_norm n ss)) in Hfolded; [done|].
  intros s. unfold debiased_norm. f_equal. by apply debiased_ext.
Qed.

Lemma destination_ok_length (dst : particles F) a (m m' : list F) :
  length m' = length m → destination_ok dst a m → destination_ok dst a m'.
Proof. intros Hl (? & ? & ? & ? & ?). repeat split; [done..|lia]. Qed.

End Reassembly.

(** X3. What an assembly leaves for particle [a] does not depend on what
    the nine entries of [a] held before: started from two arrays that agree
    outside these entries, both assemblers return the same array; in
    particular, assembling again changes nothing (for the mixed assembler
    [d_cwij] too is left as the first run left it). *)
Theorem assembly_recomputes {F : Type} `{SF : Scalar F}
    (dim : nat) (KERNEL : Kernel F) (dst src : particles F) (a : nat)
    (d_m_mat stale d_cwij : list F) (NBRS : list nat) (N_NBRS : nat) :
  dim ≤ 3 →
  destination_ok dst a d_m_mat →
  a < length d_cwij →
  N_NBRS ≤ length NBRS →
  Forall (neighbour_ok src) (take N_NBRS NBRS) →
  dim = 0 ∨ N_NBRS = 0 ∨
    f_is_zero (kernel_sum (pair_sample KERNEL dst src a <$> take N_NBRS NBRS)) = false →
  isolated a d_m_mat stale →
  (∃ m, moment_matrix dim KERNEL dst src a d_m_mat NBRS N_NBRS = Ok m ∧
        moment_matrix dim KERNEL dst src a stale NBRS N_NBRS = Ok m ∧
        moment_matrix dim KERNEL dst src a m NBRS N_NBRS = Ok m) ∧
  (∃ m c, mixed_matrix dim KERNEL dst src a d_m_mat d_cwij NBRS N_NBRS = Ok (m, c) ∧
          mixed_matrix dim KERNEL dst src a stale d_cwij NBRS N_NBRS = Ok (m, c) ∧
          mixed_matrix dim KERNEL dst src a m c NBRS N_NBRS = Ok (m, c)).
Proof.
  intros Hn Hdst Hc HN Hok Hden (Hl & Hagree).
  pose proof (destination_ok_length dst a _ _ Hl Hdst) as Hdst'.
  split.
  - destruct (moment_matrix_entries dim a KERNEL dst src d_m_mat NBRS N_NBRS)
      as (m & Hrun & Hm); [done..|].
    destruct (moment_matrix_entries dim a KERNEL dst src stale NBRS N_NBRS)
      as (m' & Hrun' & Hm'); [done..|].
    assert (Hlm : length m = length d_m_mat) by apply Hm.
    destruct (moment_matrix_entries dim a KERNEL dst src m NBRS N_NBRS)
      as (m2 & Hrun2 & Hm2); [done|by apply (destination_ok_length dst a d_m_mat)|done..|].
    exists m. split; [done|].
    rewrite Hrun', Hrun2. split; f_equal; symmetry.
    + by eapply assembled_unique; [| |exact Hm|exact Hm'].
    + eapply assembled_unique; [| |exact Hm|exact Hm2]; [done|].
      intros k Hk. destruct Hm as (_ & _ & Hout). by apply Hout.
  - destruct (mixed_matrix_entries dim a KERNEL dst src d_m_mat d_cwij NBRS N_NBRS)
      as (m & Hrun & Hm); [done..|].
    destruct (mixed_matrix_entries dim a KERNEL dst src stale d_cwij NBRS N_NBRS)
      as (m' & Hrun' & Hm'); [done..|].
    assert (Hlm : length m = length d_m_mat) by apply Hm.
    destruct (mixed_matrix_entries dim a KERNEL dst src m
                (<[a := kernel_sum (pair_sample KERNEL dst src a <$> take N_NBRS NBRS)]>
                   d_cwij) NBRS N_NBRS)
      as (m2 & Hrun2 & Hm2);
      [done|by apply (destination_ok_length dst a d_m_mat)
      |by rewrite length_insert|done..|].
    eexists m, _. split; [exact Hrun|].
    rewrite Hrun', Hrun2, list_insert_insert_eq. split; do 2 f_equal; symmetry.
    + by eapply assembled_unique; [| |exact Hm|exact Hm'].
    + eapply assembled_unique; [| |exact Hm|exact Hm2]; [done|].
      intros k Hk. destruct Hm as (_ & _ & Hout). by apply Hout.
Qed.

(** X4. Assemblies of two different particles do not interfere: run one
    after the other on the same array, in either order, they leave the same
    array. *)
Theorem assemblies_commute {F : Type} `{SF : Scalar F}
    (dim : nat) (KERNEL : Kernel F) (dst src : particles F) (a b : nat)
    (d_m_mat : list F) (NBRS_a NBRS_b : list nat) (N_a N_b : nat) :
  dim ≤ 3 →
  a ≠ b →
  destination_ok dst a d_m_mat →
  destination_ok dst b d_m_mat →
  N_a ≤ length NBRS_a →
  N_b ≤ length NBRS_b →
  Forall (neighbour_ok src) (take N_a NBRS_a) →
  Forall (neighbour_ok src) (take N_b NBRS_b) →
  ∃ m,
    (m1 ← moment_matrix dim KERNEL dst src a d_m_mat NBRS_a N_a;
     moment_matrix dim KERNEL dst src b m1 NBRS_b N_b) = Ok m ∧
    (m1 ← moment_matrix dim KERNEL dst src b d_m_mat NBRS_b N_b;
     moment_matrix dim KERNEL dst src a m1 NBRS_a N_a) = Ok m.
Proof.
  intros Hn Hab Ha Hb HNa HNb Hoka Hokb.
  destruct (moment_matrix_entries dim a KERNEL dst src d_m_mat NBRS_a N_a)
    as (ma & Hra & Hma); [done..|].
  destruct (moment_matrix_entries dim b KERNEL dst src d_m_mat NBRS_b N_b)
    as (mb & Hrb & Hmb); [done..|].
  assert (Hla : length ma = length d_m_mat) by apply Hma.
  assert (Hlb : length mb = length d_m_mat) by apply Hmb.
  destruct (moment_matrix_entries dim b KERNEL dst src ma NBRS_b N_b)
    as (mab & Hrab & Hmab);
    [done|by apply (destination_ok_length dst b d_m_mat)|done..|].
  destruct (moment_matrix_entries dim a KERNEL dst src mb NBRS_a N_a)
    as (mba & Hrba & Hmba);
    [done|by apply (destination_ok_length dst a d_m_mat)|done..|].
  exists mab. rewrite Hra, Hrb, !bind_Ok, Hrab, Hrba. split; [done|].
  f_equal. apply list_eq. intros k.
  destruct Hma as (_ & Hina & Houta), Hmb as (_ & Hinb & Houtb).
  destruct Hmab as (_ & Hinab & Houtab), Hmba as (_ & Hinba & Houtba).
  destruct (decide (9 * a ≤ k < 9 * a + 9)) as [Hka|Hka].
  - rewrite Houtab by lia.
    apply slot_index in Hka as (i & j & Hi & Hj & ->).
    by rewrite Hinba, Hina.
  - rewrite Houtba by lia.
    destruct (decide (9 * b ≤ k < 9 * b + 9)) as [Hkb|Hkb].
    + apply slot_index in Hkb as (i & j & Hi & Hj & ->).
      by rewrite Hinab, Hinb.
    + rewrite Houtab, Houta, Houtb by lia. done.
Qed.

(** ** The shape of the assembled matrix, in exact arithmetic *)

Lemma add_guarded_sym (dw : sample R → R) i j (acc : R) (s : sample R) :
  add_guarded dw i j acc s = add_guarded dw j i acc s.
Proof.
  unfold add_guarded, contribution. destruct (f_le f_1em12 (sm_r s)); [|done].
  simpl. unfold Rdiv. ring.
Qed.

Lemma moment_entry_sym (dw : sample R → R) i j (ss : list (sample R)) :
  moment_entry dw i j ss = moment_entry dw j i ss.
Proof.
  unfold moment_entry. generalize (f_zero : R).
  induction ss as [|s ss IH]; intros acc; [done|].
  simpl. by rewrite IH, add_guarded_sym.
Qed.

Lemma assembled_symmetric n a (dw : sample R → R) ss (m0 m : list R) :
  assembled n a (λ i j, moment_entry dw i j ss) m0 m → symmetric a m.
Proof.
  intros (_ & Hin & _) i j Hi Hj. rewrite !Hin by done. f_equal.
  destruct (decide (i < n ∧ j < n)), (decide (j < n ∧ i < n));
    try done; try lia. apply moment_entry_sym.
Qed.

(** X5. In exact arithmetic the matrix that either assembler leaves for
    its particle is symmetric: entry [3i + j] equals entry [3j + i]. *)
Theorem assembled_matrix_symmetric (dim : nat) (KERNEL : Kernel R)
    (dst src : particles R) (a : nat) (d_m_mat d_cwij : list R)
    (NBRS : list nat) (N_NBRS : nat) :
  dim ≤ 3 →
  destination_ok dst a d_m_mat →
  a < length d_cwij →
  N_NBRS ≤ length NBRS →
  Forall (neighbour_ok src) (take N_NBRS NBRS) →
  dim = 0 ∨ N_NBRS = 0 ∨
    f_is_zero (kernel_sum (pair_sample KERNEL dst src a <$> take N_NBRS NBRS)) = false →
  (∃ m, moment_matrix dim KERNEL dst src a d_m_mat NBRS N_NBRS = Ok m ∧
        symmetric a m) ∧
  (∃ m c, mixed_matrix dim KERNEL dst src a d_m_mat d_cwij NBRS N_NBRS = Ok (m, c) ∧
          symmetric a m).
Proof.
  intros Hn Hdst Hc HN Hok Hden. split.
  - destruct (moment_matrix_entries dim a KERNEL dst src d_m_mat NBRS N_NBRS)
      as (m & Hrun & Hm); [done..|].
    exists m. split; [done|]. by eapply assembled_symmetric.
  - destruct (mixed_matrix_entries dim a KERNEL dst src d_m_mat d_cwij NBRS N_NBRS)
      as (m & Hrun & Hm); [done..|].
    eexists m, _. split; [exact Hrun|]. by eapply assembled_symmetric.
Qed.

Lemma quadratic_form_form3 a u m :
  quadratic_form a u m = form3 u (λ i j, m !!! (9 * a + 3 * i + j)).
Proof. reflexivity. Qed.

Lemma form3_plus w (e f : nat → nat → R) :
  form3 w (λ i j, (e i j + f i j)%R) = (form3 w e + form3 w f)%R.
Proof. unfold form3. simpl. ring. Qed.

Lemma form3_ext w (e f : nat → nat → R) :
  (∀ i j, i < 3 → j < 3 → e i j = f i j) → form3 w e = form3 w f.
Proof.
  intros H. unfold form3. simpl.
  rewrite !(H 0), !(H 1), !(H 2) by lia. done.
Qed.

Lemma form3_mask n u (e : nat → nat → R) :
  form3 u (λ i j, if decide (i < n ∧ j < n) then e i j else 0%R)
  = form3 (mask n u) e.
Proof.
  unfold form3, mask. simpl.
  repeat case_decide; try lia; simpl; ring.
Qed.

Section PSD.
Variable dw : sample R → R.
Hypothesis dw_nonneg : ∀ s, (0 <= dw s)%R.

Lemma sample_form_nonneg w (s : sample R) :
  (0 <= sm_V s)%R → (0 <= form3 w (λ i j, add_guarded dw i j 0%R s))%R.
Proof.
  intros HV. unfold form3, add_guarded, contribution.
  destruct (f_le f_1em12 (sm_r s)) eqn:Hg; simpl.
  - apply R_le_true_inv in Hg. simpl in Hg.
    replace (_ + _)%R with
      (dw s * sm_V s * / sm_r s *
       (c0 w * c0 (sm_xij s) + c1 w * c1 (sm_xij s) + c2 w * c2 (sm_xij s)) ^ 2)%R
      by (unfold Rdiv; ring).
    apply Rmult_le_pos; [|apply pow2_ge_0].
    apply Rmult_le_pos; [apply Rmult_le_pos; [apply dw_nonneg|done]|].
    apply Rlt_le, Rinv_0_lt_compat. lra.
  - replace (_ + _)%R with 0%R by ring. lra.
Qed.

Lemma moment_entry_foldr i j (ss : list (sample R)) :
  moment_entry dw i j ss = foldr (λ s t, (add_guarded dw i j 0%R s + t)%R) 0%R ss.
Proof.
  unfold moment_entry. rewrite fold_left_add_guarded_R. simpl. lra.
Qed.

Lemma moment_form_nonneg w (ss : list (sample R)) :
  Forall (λ s, (0 <= sm_V s)%R) ss →
  (0 <= form3 w (λ i j, moment_entry dw i j ss))%R.
Proof.
  intros HV.
  rewrite (form3_ext _ _ (λ i j, foldr (λ s t, (add_guarded dw i j 0%R s + t)%R) 0%R ss))
    by (intros; apply moment_entry_foldr).
  induction HV as [|s ss Hs _ IH].
  - unfold form3. simpl. lra.
  - simpl. rewrite form3_plus. pose proof (sample_form_nonneg w s Hs). lra.
Qed.

Lemma assembled_form_nonneg n a ss (m0 m : list R) u :
  Forall (λ s, (0 <= sm_V s)%R) ss →
  assembled n a (λ i j, moment_entry dw i j ss) m0 m →
  (0 <= quadratic_form a u m)%R.
Proof.
  intros HV (_ & Hin & _). rewrite quadratic_form_form3.
  rewrite (form3_ext _ _ (λ i j, if decide (i < n ∧ j < n)
                                 then moment_entry dw i j ss else 0%R)).
  - rewrite form3_mask. by apply moment_form_nonneg.
  - intros i j Hi Hj. rewrite list_lookup_total_alt, Hin by done. done.
Qed.
End PSD.

Lemma vnorm_nonneg (v : vec3 R) : (0 <= vnorm v)%R.
Proof. apply sqrt_pos. Qed.

(** X6. In exact arithmetic, when no neighbour has a negative volume
    [m_b / rho_b], the matrix [M] that either assembler leaves for its
    particle is positive semidefinite: [u^T M u >= 0] for every [u]. *)
Theorem assembled_matrix_positive_semidefinite (dim : nat) (KERNEL : Kernel R)
    (dst src : particles R) (a : nat) (d_m_mat d_cwij : list R)
    (NBRS : list nat) (N_NBRS : nat) :
  dim ≤ 3 →
  destination_ok dst a d_m_mat →
  a < length d_cwij →
  N_NBRS ≤ length NBRS →
  Forall (neighbour_ok src) (take N_NBRS NBRS) →
  Forall (volume_nonneg src) (take N_NBRS NBRS) →
  dim = 0 ∨ N_NBRS = 0 ∨
    f_is_zero (kernel_sum (pair_sample KERNEL dst src a <$> take N_NBRS NBRS)) = false →
  (∃ m, moment_matrix dim KERNEL dst src a d_m_mat NBRS N_NBRS = Ok m ∧
        ∀ u, (0 <= quadratic_form a u m)%R) ∧
  (∃ m c, mixed_matrix dim KERNEL dst src a d_m_mat d_cwij NBRS N_NBRS = Ok (m, c) ∧
          ∀ u, (0 <= quadratic_form a u m)%R).
Proof.
  intros Hn Hdst Hc HN Hok HV Hden.
  assert (Forall (λ s : sample R, (0 <= sm_V s)%R)
            (pair_sample KERNEL dst src a <$> take N_NBRS NBRS)) as HVs.
  { apply Forall_fmap. eapply Forall_impl; [exact HV|]. by intros b Hb. }
  split.
  - destruct (moment_matrix_entries dim a KERNEL dst src d_m_mat NBRS N_NBRS)
      as (m & Hrun & Hm); [done..|].
    exists m. split; [done|]. intros u.
    eapply (assembled_form_nonneg grad_norm); [|exact HVs|exact Hm].
    intros s. apply vnorm_nonneg.
  - destruct (mixed_matrix_entries dim a KERNEL dst src d_m_mat d_cwij NBRS N_NBRS)
      as (m & Hrun & Hm); [done..|].
    eexists m, _. split; [exact Hrun|]. intros u.
    eapply (assembled_form_nonneg (debiased_norm dim _)); [|exact HVs|exact Hm].
    intros s. apply vnorm_nonneg.
Qed.

(** ** Bounds *)

Section Init.
Context {F : Type} `{SF : Scalar F}.

Lemma zero_m_mat_only_IndexError a (m : list F) e :
  zero_m_mat a m = Raise e → e = IndexError.
Proof.
  unfold zero_m_mat, for_range.
  apply (foldM_raises (λ e, e = IndexError)).
  intros i s e' _ H. unfold setitem in H. case_decide; congruence.
Qed.

Lemma zero_m_mat_eq a (m : list F) :
  zero_m_mat a m
  = if decide (9 * a + 9 ≤ length m) then Ok (zero_slot a m) else Raise IndexError.
Proof.
  case_decide as Hlen.
  - destruct (zero_m_mat_Ok a m Hlen) as (m' & -> & Hl & Hz). f_equal.
    apply list_eq. intros k. rewrite Hz. unfold zero_slot.
    case_decide as Hk.
    + rewrite list_lookup_inserts by (rewrite ?length_replicate; lia).
      symmetry. apply lookup_replicate_2. lia.
    + destruct (decide (k < 9 * a)).
      * by rewrite list_lookup_inserts_lt.
      * rewrite list_lookup_inserts_ge by (rewrite ?length_replicate; lia). done.
  - destruct (zero_m_mat a m) as [m'|e] eqn:H.
    + apply zero_m_mat_Ok_inv in H as (? & _). lia.
    + f_equal. by eapply zero_m_mat_only_IndexError.
Qed.
End Init.

(** X7. [initialize] of either assembler returns the array with the nine
    entries of the particle set to zero when the array holds them, and
    raises [IndexError] otherwise. *)
Theorem initialize_bounds {F : Type} `{SF : Scalar F} (d_idx : nat) (d_m_mat : list F) :
  GradientCorrectionPreStep.initialize d_idx d_m_mat
  = (if decide (9 * d_idx + 9 ≤ length d_m_mat)
     then Ok (zero_slot d_idx d_m_mat) else Raise IndexError) ∧
  MixedKernelCorrectionPreStep.initialize d_idx d_m_mat
  = (if decide (9 * d_idx + 9 ≤ length d_m_mat)
     then Ok (zero_slot d_idx d_m_mat) else Raise IndexError).
Proof.
  unfold GradientCorrectionPreStep.initialize, MixedKernelCorrectionPreStep.initialize.
  split; apply zero_m_mat_eq.
Qed.

(** ** Zero divisors in binary64

    A division by zero gives an infinity or a NaN, and an infinity or a
    NaN is never turned back into a finite number by the operations that
    follow it in the accumulations. *)

Lemma is_zero_SF (d : float) : f_is_zero d = true → ∃ s, Prim2SF d = S754_zero s.
Proof.
  simpl. rewrite FloatAxioms.eqb_spec.
  remember (Prim2SF 0) as z eqn:Hz. vm_compute in Hz. subst z.
  destruct (Prim2SF d) as [s|s| |s m e]; cbn; try discriminate; eauto;
    destruct s; cbn; try discriminate.
Qed.

Lemma not_finite_div_zero (x d : float) : f_is_zero d = true → not_finite (x / d).
Proof.
  intros [s Hd]%is_zero_SF. unfold not_finite.
  rewrite FloatAxioms.div_spec, Hd. by destruct (Prim2SF x).
Qed.

Lemma not_finite_div_l (x y : float) : not_finite x → not_finite (x / y).
Proof.
  unfold not_finite. rewrite FloatAxioms.div_spec.
  destruct (Prim2SF x); try done; by destruct (Prim2SF y).
Qed.

Lemma not_finite_mul_l (x y : float) : not_finite x → not_finite (x * y).
Proof.
  unfold not_finite. rewrite FloatAxioms.mul_spec.
  destruct (Prim2SF x); try done; by destruct (Prim2SF y).
Qed.

Lemma not_finite_mul_r (x y : float) : not_finite y → not_finite (x * y).
Proof.
  unfold not_finite. rewrite FloatAxioms.mul_spec.
  destruct (Prim2SF y); try done; by destruct (Prim2SF x).
Qed.

Lemma not_finite_add_l (x y : float) : not_finite x → not_finite (x + y).
Proof.
  unfold not_finite. rewrite FloatAxioms.add_spec.
  destruct (Prim2SF x) as [|[]| |]; try done;
    destruct (Prim2SF y) as [|[]| |]; done.
Qed.

Lemma not_finite_add_r (x y : float) : not_finite y → not_finite (x + y).
Proof.
  unfold not_finite. rewrite FloatAxioms.add_spec.
  destruct (Prim2SF y) as [|[]| |]; try done;
    destruct (Prim2SF x) as [|[]| |]; done.
Qed.

Lemma not_finite_sqrt (x : float) : not_finite x → not_finite (PrimFloat.sqrt x).
Proof.
  unfold not_finite. rewrite FloatAxioms.sqrt_spec.
  destruct (Prim2SF x) as [|[]| |]; done.
Qed.

Lemma vnorm_not_finite (v : vec3 float) : not_finite (c0 v) → not_finite (vnorm v).
Proof.
  intros H. unfold vnorm. apply not_finite_sqrt. do 2 apply not_finite_add_l.
  by apply not_finite_mul_l.
Qed.

Lemma contribution_not_finite (dw : float) (s : sample float) i j :
  not_finite dw ∨ not_finite (sm_V s) → not_finite (contribution dw s i j).
Proof.
  intros H. unfold contribution. apply not_finite_div_l. do 2 apply not_finite_mul_l.
  destruct H; [by apply not_finite_mul_l | by apply not_finite_mul_r].
Qed.

Lemma fold_add_guarded_not_finite (dw : sample float → float) i j ss (acc : float) :
  not_finite acc ∨
    Exists (λ s, f_le f_1em12 (sm_r s) = true ∧ not_finite (contribution (dw s) s i j)) ss →
  not_finite (fold_left (add_guarded dw i j) ss acc).
Proof.
  revert acc. induction ss as [|s ss IH]; intros acc H; simpl.
  - destruct H as [H|H]; [done|by apply Exists_nil in H].
  - apply IH. unfold add_guarded. destruct (f_le f_1em12 (sm_r s)) eqn:Hg.
    + destruct H as [H|H]; [left; by apply not_finite_add_l|].
      apply Exists_cons in H as [[_ H]|H]; [left; by apply not_finite_add_r|by right].
    + destruct H as [H|H]; [by left|].
      apply Exists_cons in H as [[H _]|H]; [congruence|by right].
Qed.

Lemma fold_sum_not_finite {A} (g : A → float) (l : list A) (acc : float) :
  not_finite acc ∨ Exists (λ p, not_finite (g p)) l →
  not_finite (fold_left (λ acc p, acc ⊕ g p) l acc).
Proof.
  revert acc. induction l as [|p l IH]; intros acc H; simpl.
  - destruct H as [H|H]; [done|by apply Exists_nil in H].
  - apply IH. destruct H as [H|H]; [left; by apply not_finite_add_l|].
    apply Exists_cons in H as [H|H]; [left; by apply not_finite_add_r|by right].
Qed.

Section NotFinite.
Variables (n a : nat) (KERNEL : Kernel float) (dst src : particles float).

Lemma assembled_entry (entry : nat → nat → float) (m0 m' : list float) i j :
  assembled n a entry m0 m' → n ≤ 3 → i < n → j < n →
  m' !!! (9 * a + 3 * i + j) = entry i j.
Proof.
  intros (_ & Hin & _) Hn Hi Hj. apply list_lookup_total_correct.
  rewrite Hin by lia. by rewrite decide_True.
Qed.

Lemma debiased_norm_zero_den (num : nat → float) (den : float) (g : vec3 float) :
  0 < n → f_is_zero den = true → not_finite (vnorm (debiased n num den g)).
Proof.
  intros Hn Hden. apply vnorm_not_finite. simpl. unfold debiased_component.
  rewrite decide_True by done. by apply not_finite_div_zero.
Qed.

(** X8. In binary64: a neighbour [b] of density zero stops no operation,
    and its volume [m_b / rho_b], an infinity or a NaN, reaches what is
    stored.  The scalar that the kernel-sum normaliser and the mixed
    assembler leave in [d_cwij] is an infinity or a NaN; and when [b]
    passes the guard [r >= 1e-12], so is every entry of the leading
    [dim]-by-[dim] block that either assembler leaves. *)
Theorem zero_density_not_finite (d_m_mat d_cwij : list float) NBRS N_NBRS b :
  n ≤ 3 →
  destination_ok dst a d_m_mat →
  a < length d_cwij →
  N_NBRS ≤ length NBRS →
  Forall (readable src) (take N_NBRS NBRS) →
  b ∈ take N_NBRS NBRS →
  f_is_zero (p_rho src !!! b) = true →
  (∃ c, KernelCorrection.run a d_cwij (p_m src) (p_rho src)
          (kernel_pairs KERNEL dst src a (take N_NBRS NBRS)) = Ok c ∧
        not_finite (c !!! a)) ∧
  (∃ m c, mixed_matrix n KERNEL dst src a d_m_mat d_cwij NBRS N_NBRS = Ok (m, c) ∧
          not_finite (c !!! a) ∧
          (apart KERNEL dst src a b →
           ∀ i j, i < n → j < n → not_finite (m !!! (9 * a + 3 * i + j)))) ∧
  (∃ m, moment_matrix n KERNEL dst src a d_m_mat NBRS N_NBRS = Ok m ∧
        (apart KERNEL dst src a b →
         ∀ i j, i < n → j < n → not_finite (m !!! (9 * a + 3 * i + j)))).
Proof.
  intros Hn Hdst Hc HN Hok Hb Hrho.
  assert (not_finite (sm_V (pair_sample KERNEL dst src a b))) as HV
    by (by apply not_finite_div_zero).
  assert (∀ dw i j, apart KERNEL dst src a b →
            Exists (λ s, f_le f_1em12 (sm_r s) = true ∧
                         not_finite (contribution (dw s) s i j))
              (pair_sample KERNEL dst src a <$> take N_NBRS NBRS)) as Hpoison.
  { intros dw i j Hg. apply Exists_fmap, Exists_exists. exists b.
    split; [done|]. split; [exact Hg|]. apply contribution_not_finite. by right. }
  split; [|split].
  - eexists. split.
    + apply KernelCorrection_run_Ok; [done|]. by apply kernel_pairs_readable.
    + rewrite list_lookup_total_insert_eq by done.
      apply (fold_sum_not_finite
               (λ p, f_div (p_m src !!! p.1 ⊗ p.2) (p_rho src !!! p.1))).
      right. apply Exists_fmap, Exists_exists. exists b. split; [done|].
      by apply not_finite_div_zero.
  - destruct (mixed_matrix_total n a KERNEL dst src d_m_mat d_cwij NBRS N_NBRS)
      as (m1 & num & m & Hzeroed & _ & Hrun & Hfolded); [done..|].
    eexists m, _. split; [exact Hrun|]. split.
    + rewrite list_lookup_total_insert_eq by done.
      apply (fold_sum_not_finite (λ s, sm_V s ⊗ sm_wij s)).
      right. apply Exists_fmap, Exists_exists. exists b. split; [done|].
      by apply not_finite_mul_l.
    + intros Hg i j Hi Hj. destruct Hdst as (_ & _ & _ & _ & Hlen).
      rewrite (assembled_entry _ d_m_mat m i j
                 (assembled_of_folded n a _ _ d_m_mat m1 m Hn Hlen Hzeroed Hfolded))
        by done.
      apply fold_add_guarded_not_finite. right. by apply Hpoison.
  - destruct (moment_matrix_total n a KERNEL dst src d_m_mat NBRS N_NBRS)
      as (m1 & m & _ & Hzeroed & Hrun & Hfolded); [done..|].
    exists m. split; [exact Hrun|].
    intros Hg i j Hi Hj. destruct Hdst as (_ & _ & _ & _ & Hlen).
    rewrite (assembled_entry _ d_m_mat m i j
               (assembled_of_folded n a _ _ d_m_mat m1 m Hn Hlen Hzeroed Hfolded))
      by done.
    apply fold_add_guarded_not_finite. right. by apply Hpoison.
Qed.

(** X9. In binary64, with [1 <= dim <= 3]: when the sum [den] of pass 1
    is zero, the mixed assembler divides by it all the same; the run
    completes, [d_cwij] receives the zero, and as soon as one neighbour
    passes the guard [r >= 1e-12] every entry of the leading
    [dim]-by-[dim] block of the matrix is an infinity or a NaN. *)
Theorem zero_den_not_finite (d_m_mat d_cwij : list float) NBRS N_NBRS :
  let ss := pair_sample KERNEL dst src a <$> take N_NBRS NBRS in
  0 < n ≤ 3 →
  destination_ok dst a d_m_mat →
  a < length d_cwij →
  N_NBRS ≤ length NBRS →
  Forall (readable src) (take N_NBRS NBRS) →
  Exists (apart KERNEL dst src a) (take N_NBRS NBRS) →
  f_is_zero (kernel_sum ss) = true →
  ∃ m, mixed_matrix n KERNEL dst src a d_m_mat d_cwij NBRS N_NBRS
       = Ok (m, <[a := kernel_sum ss]> d_cwij) ∧
       ∀ i j, i < n → j < n → not_finite (m !!! (9 * a + 3 * i + j)).
Proof.
  intros ss [Hn0 Hn] Hdst Hc HN Hok Hex Hden.
  destruct (mixed_matrix_total n a KERNEL dst src d_m_mat d_cwij NBRS N_NBRS)
    as (m1 & num & m & Hzeroed & _ & Hrun & Hfolded); [done..|].
  exists m. split; [done|]. intros i j Hi Hj.
  destruct Hdst as (_ & _ & _ & _ & Hlen).
  rewrite (assembled_entry _ d_m_mat m i j
             (assembled_of_folded n a _ _ d_m_mat m1 m Hn Hlen Hzeroed Hfolded))
    by done.
  apply fold_add_guarded_not_finite. right. unfold ss.
  apply Exists_fmap. eapply Exists_impl; [exact Hex|].
  intros b Hb. split; [exact Hb|].
  apply contribution_not_finite. left. by apply debiased_norm_zero_den.
Qed.

End NotFinite.

Section CorrectorEdges.
Context {F : Type} `{SF : Scalar F}.

Lemma copy_block_Ok_dim n a (d_m_mat temp0 temp : list F) :
  length temp0 = 9 →
  for_range n (λ i temp,
    for_range n (λ j temp,
      v ← getitem d_m_mat (9 * a + 3 * i + j);
      setitem temp (n * i + j) v) temp) temp0 = Ok temp →
  n ≤ 3.
Proof.
  intros Hlen H. destruct n as [|n']; [lia|].
  assert (Hstep : ∀ i j (s s' : list F), length s = 9 →
            (v ← getitem d_m_mat (9 * a + 3 * i + j);
             setitem s (Datatypes.S n' * i + j) v) = Ok s' →
            length s' = 9 ∧ Datatypes.S n' * i + j < 9).
  { intros i j s s' Hs Hb. apply bind_Ok_inv in Hb as (v & _ & Hb).
    apply setitem_Ok_inv in Hb as (Hlt & ->). rewrite length_insert. lia. }
  assert (Hinner : ∀ i k (s s' : list F), length s = 9 →
            for_range k (λ j temp,
              v ← getitem d_m_mat (9 * a + 3 * i + j);
              setitem temp (Datatypes.S n' * i + j) v) s = Ok s' → length s' = 9).
  { intros i k s s' Hs. apply (for_range_preserves (λ t : list F, length t = 9)); [|done].
    intros j t t' _ Ht Hb. by apply (Hstep i j t t'). }
  apply for_range_last in H as (t & Hpre & Hlast).
  assert (length t = 9) as Ht.
  { revert Hpre. apply (for_range_preserves (λ t : list F, length t = 9)); [|done].
    intros i s s' _ Hs. by apply Hinner. }
  apply for_range_last in Hlast as (t2 & Hpre2 & Hlast2).
  apply Hinner in Hpre2; [|done].
  apply Hstep in Hlast2 as [_ Hidx]; [|done]. nia.
Qed.

Lemma copy_block_only_IndexError n a (d_m_mat temp0 : list F) e :
  for_range n (λ i temp,
    for_range n (λ j temp,
      v ← getitem d_m_mat (9 * a + 3 * i + j);
      setitem temp (n * i + j) v) temp) temp0 = Raise e →
  e = IndexError.
Proof.
  unfold for_range. apply (foldM_raises (λ e, e = IndexError)).
  intros i s e1 _. apply (foldM_raises (λ e, e = IndexError)).
  intros j t e2 _ H. unfold getitem, setitem in H.
  destruct (d_m_mat !! _); [|by injection H as <-].
  rewrite bind_Ok in H. case_decide; congruence.
Qed.

(** X10. With [dim > 3] the gradient corrector raises [IndexError] on
    every input: copying the [dim]-by-[dim] block runs out of the nine
    entries of [temp] (or of [d_m_mat]). *)
Theorem corrector_large_dim (dim : nat) (tol : F) (gj_solve : GradientCorrection.solver F)
    (d_idx : nat) (d_m_mat : list F) (DWIJ : vec3 F) (HIJ : F) :
  3 < dim →
  GradientCorrection.loop dim tol gj_solve d_idx d_m_mat DWIJ HIJ = Raise IndexError.
Proof.
  intros Hdim. unfold GradientCorrection.loop. cbv zeta.
  cbn [GradientCorrection.a_m_mat GradientCorrection.a_DWIJ].
  match goal with |- ?c ≫= _ = _ => destruct c as [temp|e] eqn:Hcopy end.
  - apply copy_block_Ok_dim in Hcopy; [lia|done].
  - apply copy_block_only_IndexError in Hcopy as ->. done.
Qed.

(** X11. A completed call of the gradient corrector leaves the components
    [i >= dim] of [DWIJ] as they were, in the accepting branch too. *)
Theorem corrector_keeps_tail (dim : nat) (tol : F) (gj_solve : GradientCorrection.solver F)
    (d_idx : nat) (d_m_mat : list F) (DWIJ : vec3 F) (HIJ : F)
    (out : GradientCorrection.arrays F) :
  GradientCorrection.loop dim tol gj_solve d_idx d_m_mat DWIJ HIJ = Ok out →
  ∀ i, dim ≤ i → i < 3 → vnth (GradientCorrection.a_DWIJ out) i = vnth DWIJ i.
Proof.
  unfold GradientCorrection.loop. cbv zeta. intros H i Hi Hi3.
  apply bind_Ok_inv in H as (temp & _ & H).
  apply bind_Ok_inv in H as (change & _ & H).
  destruct (f_le change tol); [|by injection H as <-].
  revert H.
  apply (for_range_preserves
    (λ st : GradientCorrection.arrays F, vnth (GradientCorrection.a_DWIJ st) i = vnth DWIJ i));
    [|done].
  intros k st st' Hk Hst Hstep.
  apply bind_Ok_inv in Hstep as (b & _ & Hstep).
  apply bind_Ok_inv in Hstep as (D & Hset & Hstep).
  injection Hstep as <-. simpl.
  unfold vset in Hset. case_decide; [|discriminate]. injection Hset as <-.
  rewrite vnth_vupd_other by lia. done.
Qed.

End CorrectorEdges.

Section LargeDim.
Context {F : Type} `{SF : Scalar F}.
Variables (n a : nat) (KERNEL : Kernel F) (dst src : particles F).

Lemma vget_3 (v : vec3 F) : vget v 3 = Raise IndexError.
Proof. reflexivity. Qed.

Lemma seq_split_3 : 3 < n → seq 0 n = seq 0 3 ++ 3 :: seq 4 (n - 4).
Proof.
  intros Hn. replace n with (3 + Datatypes.S (n - 4)) at 1 by lia.
  by rewrite seq_app.
Qed.

Lemma accumulate_large_dim xij dw V r (m : list F) :
  3 < n → 9 * a + 9 ≤ length m →
  accumulate n a xij dw V r m = Raise IndexError.
Proof.
  intros Hn Hlen. unfold accumulate. unfold for_range at 1.
  assert (seq 0 n = 0 :: seq 1 (n - 1)) as ->
    by (replace n with (Datatypes.S (n - 1)) at 1 by lia; done).
  apply foldM_cons_Raise.
  rewrite vget_lt, bind_Ok by lia. unfold for_range.
  rewrite seq_split_3 by lia.
  destruct (accumulate_row 3 a xij dw V r 0 m) as (m' & Hrow & _); [lia..|].
  eapply foldM_app_Raise; [exact Hrow|]. by rewrite vget_3.
Qed.

Lemma neighbour_large_dim b (m : list F) :
  3 < n → 9 * a + 9 ≤ length m → neighbour_ok src b →
  GradientCorrectionPreStep.neighbour n a
    (p_x dst !!! a) (p_y dst !!! a) (p_z dst !!! a) (p_h dst !!! a)
    (p_m src) (p_rho src) (p_x src) (p_y src) (p_z src) (p_h src) KERNEL b m
  = if f_le f_1em12 (sm_r (pair_sample KERNEL dst src a b))
    then Raise IndexError else Ok m.
Proof.
  intros Hn Hlen ((Hx & Hy & Hz & Hh & Hm & Hrho) & Hnz).
  unfold GradientCorrectionPreStep.neighbour.
  rewrite !getitem_lt by done. rewrite !bind_Ok. cbv beta zeta.
  cbn [pair_sample sm_r].
  match goal with |- (if ?g then _ else _) = _ => destruct g eqn:Hg end; [|done].
  by apply accumulate_large_dim.
Qed.

Lemma pass1_neighbour_large_dim b (st : F * vec3 F) :
  3 < n → neighbour_ok src b →
  MixedKernelCorrectionPreStep.pass1_neighbour n
    (p_x dst !!! a) (p_y dst !!! a) (p_z dst !!! a) (p_h dst !!! a)
    (p_m src) (p_rho src) (p_x src) (p_y src) (p_z src) (p_h src) KERNEL b st
  = Raise IndexError.
Proof.
  intros Hn ((Hx & Hy & Hz & Hh & Hm & Hrho) & Hnz). destruct st as [den num].
  unfold MixedKernelCorrectionPreStep.pass1_neighbour.
  rewrite !getitem_lt by done. rewrite !bind_Ok. cbv beta zeta.
  unfold for_range. rewrite seq_split_3 by done.
  match goal with |- context [foldM ?body _ num] =>
    destruct (add_scaled_Ok 3
      (f_div (p_m src !!! b) (p_rho src !!! b))
      (gradient KERNEL
         (Vec3 (p_x dst !!! a ⊖ p_x src !!! b) (p_y dst !!! a ⊖ p_y src !!! b)
               (p_z dst !!! a ⊖ p_z src !!! b))
         (vnorm (Vec3 (p_x dst !!! a ⊖ p_x src !!! b) (p_y dst !!! a ⊖ p_y src !!! b)
                      (p_z dst !!! a ⊖ p_z src !!! b)))
         ((p_h dst !!! a ⊕ p_h src !!! b) ⊗ f_half)) num) as (num' & Hrun & _);
      [lia|]
  end.
  erewrite foldM_app_Raise; [done|exact Hrun|]. by rewrite vget_3.
Qed.

(** X12. With [dim > 3] and processable neighbours, the moment-matrix
    assembler raises [IndexError] as soon as a neighbour passes the guard
    [r >= 1e-12], and the mixed assembler raises [IndexError] as soon as it
    has a neighbour: [xij[3]] and [numerator[3]] do not exist. *)
Theorem assemblers_large_dim (d_m_mat d_cwij : list F) NBRS N_NBRS :
  3 < n →
  destination_ok dst a d_m_mat →
  N_NBRS ≤ length NBRS →
  Forall (neighbour_ok src) (take N_NBRS NBRS) →
  (Exists (λ b, f_le f_1em12 (sm_r (pair_sample KERNEL dst src a b)) = true)
     (take N_NBRS NBRS) →
   moment_matrix n KERNEL dst src a d_m_mat NBRS N_NBRS = Raise IndexError) ∧
  (0 < N_NBRS →
   mixed_matrix n KERNEL dst src a d_m_mat d_cwij NBRS N_NBRS = Raise IndexError).
Proof.
  intros Hn (Hx & Hy & Hz & Hh & Hlen) HN Hok.
  destruct (zero_m_mat_Ok a d_m_mat Hlen) as (m1 & Hinit & Hzeroed).
  assert (9 * a + 9 ≤ length m1) as Hlen1 by (destruct Hzeroed as [-> _]; done).
  split.
  - intros Hex.
    unfold moment_matrix, GradientCorrectionPreStep.assemble.
    unfold GradientCorrectionPreStep.initialize. rewrite Hinit, bind_Ok.
    unfold GradientCorrectionPreStep.loop_all.
    rewrite !getitem_lt by done. rewrite !bind_Ok. cbv zeta.
    rewrite (for_range_getitem NBRS N_NBRS
      (GradientCorrectionPreStep.neighbour n a
         (p_x dst !!! a) (p_y dst !!! a) (p_z dst !!! a) (p_h dst !!! a)
         (p_m src) (p_rho src) (p_x src) (p_y src) (p_z src) (p_h src) KERNEL))
      by done.
    clear Hinit Hzeroed HN. revert Hex.
    induction Hok as [|b bs Hb _ IH]; intros Hex; [by apply Exists_nil in Hex|].
    cbn [foldM]. rewrite neighbour_large_dim by done.
    destruct (f_le f_1em12 (sm_r (pair_sample KERNEL dst src a b))) eqn:Hg; [done|].
    rewrite bind_Ok. apply IH. apply Exists_cons in Hex as [Hex|Hex]; [congruence|done].
  - intros HN0.
    unfold mixed_matrix, MixedKernelCorrectionPreStep.assemble.
    unfold MixedKernelCorrectionPreStep.initialize. rewrite Hinit, bind_Ok.
    unfold MixedKernelCorrectionPreStep.loop_all.
    rewrite !getitem_lt by done. rewrite !bind_Ok. cbv zeta.
    rewrite init_locals, bind_Ok.
    rewrite (for_range_getitem NBRS N_NBRS
      (MixedKernelCorrectionPreStep.pass1_neighbour n
         (p_x dst !!! a) (p_y dst !!! a) (p_z dst !!! a) (p_h dst !!! a)
         (p_m src) (p_rho src) (p_x src) (p_y src) (p_z src) (p_h src) KERNEL))
      by done.
    destruct (take N_NBRS NBRS) as [|b rest] eqn:Htake.
    { apply (f_equal length) in Htake. rewrite length_take in Htake.
      simpl in Htake. lia. }
    erewrite foldM_cons_Raise; [done|].
    apply pass1_neighbour_large_dim; [done|].
    by apply Forall_cons in Hok as [Hb _].
Qed.

End LargeDim.

Lemma kernel_sum_pairs (KERNEL : Kernel R) (dst src : particles R) a bs (acc : R) :
  Forall (neighbour_ok src) bs →
  fold_left (λ acc s, acc ⊕ sm_V s ⊗ sm_wij s) (pair_sample KERNEL dst src a <$> bs) acc
  = fold_left (λ acc p, acc ⊕ f_div (p_m src !!! p.1 ⊗ p.2) (p_rho src !!! p.1))
      (kernel_pairs KERNEL dst src a bs) acc.
Proof.
  intros Hok. revert acc. induction Hok as [|b bs Hb _ IH]; intros acc; [done|].
  unfold kernel_pairs in *. rewrite !fmap_cons. cbn [fold_left]. rewrite <- IH.
  f_equal. destruct Hb as (_ & Hnz). apply R_is_zero_false_inv in Hnz.
  cbn in *. field. done.
Qed.

(** X13. In exact arithmetic the scalar that the mixed assembler stores
    in [d_cwij] is the one the kernel-sum normaliser computes for the same
    particle and neighbours: the two equations leave the same [d_cwij]. *)
Theorem mixed_cwij_is_kernel_correction (dim : nat) (KERNEL : Kernel R)
    (dst src : particles R) (a : nat) (d_m_mat d_cwij : list R)
    (NBRS : list nat) (N_NBRS : nat) :
  dim ≤ 3 →
  destination_ok dst a d_m_mat →
  a < length d_cwij →
  N_NBRS ≤ length NBRS →
  Forall (neighbour_ok src) (take N_NBRS NBRS) →
  dim = 0 ∨ N_NBRS = 0 ∨
    f_is_zero (kernel_sum (pair_sample KERNEL dst src a <$> take N_NBRS NBRS)) = false →
  ∃ m c,
    mixed_matrix dim KERNEL dst src a d_m_mat d_cwij NBRS N_NBRS = Ok (m, c) ∧
    KernelCorrection.run a d_cwij (p_m src) (p_rho src)
      (kernel_pairs KERNEL dst src a (take N_NBRS NBRS)) = Ok c.
Proof.
  intros Hn Hdst Hc HN Hok Hden.
  destruct (mixed_matrix_run dim a KERNEL dst src d_m_mat d_cwij NBRS N_NBRS)
    as (m1 & num & m & _ & _ & Hrun & _); [done..|].
  eexists m, _. split; [exact Hrun|].
  rewrite KernelCorrection_run_Ok by (done || by apply kernel_pairs_ok).
  do 2 f_equal. unfold kernel_sum. symmetry. by apply kernel_sum_pairs.
Qed.

Section Buffer.
Context {F : Type} `{SF : Scalar F}.

Lemma getitem_take {A} (l l' : list A) N k :
  take N l = take N l' → k < N → getitem l k = getitem l' k.
Proof.
  intros Ht Hk. unfold getitem.
  by rewrite <- (lookup_take_lt l N k), <- (lookup_take_lt l' N k), Ht by done.
Qed.

Lemma for_range_neighbours {S} (NBRS NBRS' : list nat) N
    (f : nat → S → result S) (s : S) :
  take N NBRS = take N NBRS' →
  for_range N (λ k s, b ← getitem NBRS k; f b s) s
  = for_range N (λ k s, b ← getitem NBRS' k; f b s) s.
Proof.
  intros Ht. apply for_range_ext. intros k t Hk.
  by rewrite (getitem_take NBRS NBRS' N k).
Qed.

(** X14. Only the first [N_NBRS] entries of [NBRS] are read: two
    neighbour buffers that agree on them give the same outcome, result or
    exception, for both assemblers and on every input. *)
Theorem neighbours_beyond_count_ignored (dim : nat) (KERNEL : Kernel F)
    (dst src : particles F) (a : nat) (d_m_mat d_cwij : list F)
    (NBRS NBRS' : list nat) (N_NBRS : nat) :
  take N_NBRS NBRS = take N_NBRS NBRS' →
  moment_matrix dim KERNEL dst src a d_m_mat NBRS N_NBRS
  = moment_matrix dim KERNEL dst src a d_m_mat NBRS' N_NBRS ∧
  mixed_matrix dim KERNEL dst src a d_m_mat d_cwij NBRS N_NBRS
  = mixed_matrix dim KERNEL dst src a d_m_mat d_cwij NBRS' N_NBRS.
Proof.
  intros Ht. split.
  - unfold moment_matrix, GradientCorrectionPreStep.assemble.
    destruct (GradientCorrectionPreStep.initialize a d_m_mat) as [m1|e]; [|done].
    rewrite !bind_Ok. unfold GradientCorrectionPreStep.loop_all.
    destruct (getitem (p_x dst) a); [|done]. rewrite !bind_Ok.
    destruct (getitem (p_y dst) a); [|done]. rewrite !bind_Ok.
    destruct (getitem (p_z dst) a); [|done]. rewrite !bind_Ok.
    destruct (getitem (p_h dst) a); [|done]. rewrite !bind_Ok. cbv zeta.
    by apply for_range_neighbours.
  - unfold mixed_matrix, MixedKernelCorrectionPreStep.assemble.
    destruct (MixedKernelCorrectionPreStep.initialize a d_m_mat) as [m1|e]; [|done].
    rewrite !bind_Ok. unfold MixedKernelCorrectionPreStep.loop_all.
    destruct (getitem (p_x dst) a); [|done]. rewrite !bind_Ok.
    destruct (getitem (p_y dst) a); [|done]. rewrite !bind_Ok.
    destruct (getitem (p_z dst) a); [|done]. rewrite !bind_Ok.
    destruct (getitem (p_h dst) a); [|done]. rewrite !bind_Ok. cbv zeta.
    rewrite init_locals, !bind_Ok.
    rewrite (for_range_neighbours NBRS NBRS' N_NBRS) by done.
    match goal with |- ?c ≫= _ = _ => destruct c as [[den num]|e]; [|done] end.
    rewrite !bind_Ok.
    destruct (setitem d_cwij a den); [|done]. rewrite !bind_Ok.
    by rewrite (for_range_neighbours NBRS NBRS' N_NBRS).
Qed.

(** X15. For every scalar type, binary64 included: the run of the
    kernel-sum normaliser leaves in [d_cwij[d_idx]] the sum, taken from
    left to right and started at [0.0], of the terms [(m_b * W_ab) / rho_b]
    as the code computes them (the product first), and changes no other
    entry. *)
Theorem kernel_correction_left_to_right (d_idx : nat) (d_cwij s_m s_rho : list F)
    (pairs : list (nat * F)) :
  d_idx < length d_cwij →
  Forall (pair_ok s_m s_rho) pairs →
  KernelCorrection.run d_idx d_cwij s_m s_rho pairs
  = Ok (<[d_idx := fold_left
                     (λ acc p, acc ⊕ f_div (s_m !!! p.1 ⊗ p.2) (s_rho !!! p.1))
                     pairs f_zero]> d_cwij).
Proof.
  intros Hd Hok. unfold KernelCorrection.run, KernelCorrection.initialize.
  assert (Forall (pair_readable s_m s_rho) pairs) as Hread
    by (eapply Forall_impl; [exact Hok|apply pair_ok_readable]).
  rewrite setitem_lt, bind_Ok by done.
  rewrite KernelCorrection_loops_Ok by (by rewrite ?length_insert).
  by rewrite list_lookup_total_insert_eq, list_insert_insert_eq.
Qed.

End Buffer.

Lemma NaN_sub_r (x y : float) : is_NaN y → is_NaN (x - y)%float.
Proof.
  unfold is_NaN. intros H. rewrite FloatAxioms.sub_spec, H.
  by destruct (Prim2SF x).
Qed.

Lemma NaN_abs (x : float) : is_NaN x → is_NaN (PrimFloat.abs x).
Proof. unfold is_NaN. intros H. by rewrite FloatAxioms.abs_spec, H. Qed.

Lemma NaN_div_l (x y : float) : is_NaN x → is_NaN (x / y)%float.
Proof. unfold is_NaN. intros H. by rewrite FloatAxioms.div_spec, H. Qed.

Lemma NaN_add_l (x y : float) : is_NaN x → is_NaN (x + y)%float.
Proof. unfold is_NaN. intros H. by rewrite FloatAxioms.add_spec, H. Qed.

Lemma NaN_add_r (x y : float) : is_NaN y → is_NaN (x + y)%float.
Proof.
  unfold is_NaN. intros H. rewrite FloatAxioms.add_spec, H.
  by destruct (Prim2SF x).
Qed.

Lemma NaN_leb_l (x y : float) : is_NaN x → (x <=? y)%float = false.
Proof. unfold is_NaN. intros H. by rewrite FloatAxioms.leb_spec, H. Qed.

Lemma NaN_sum (t : nat → float) (l : list nat) (acc : float) :
  is_NaN acc ∨ (∃ k, k ∈ l ∧ is_NaN (t k)) →
  is_NaN (foldl (λ acc k, acc + t k)%float acc l).
Proof.
  revert acc. induction l as [|k l IH]; intros acc H; simpl.
  - destruct H as [H|(k & Hk & _)]; [done|by apply elem_of_nil in Hk].
  - apply IH. destruct H as [H|(k' & Hk' & Hnan)].
    + left. by apply NaN_add_l.
    + apply elem_of_cons in Hk' as [->|Hk'].
      * left. by apply NaN_add_r.
      * right. by exists k'.
Qed.

Lemma NaN_relative_change n (DWIJ x : vec3 float) (HIJ : float) i :
  i < n → is_NaN (vnth x i) → is_NaN (relative_change n DWIJ x HIJ).
Proof.
  intros Hi Hnan. unfold relative_change. apply NaN_sum. right.
  exists i. split; [apply elem_of_seq; lia|].
  unfold change_term. cbn. apply NaN_div_l, NaN_abs. by apply NaN_sub_r.
Qed.

(** X16. In binary64, when a component [i < dim] of the solver's result
    is NaN, the relative change is NaN, the test [change <= tol] fails and
    [DWIJ] is left as it was, whatever [tol] is. *)
Theorem nan_solution_rejected (dim : nat) (tol : float)
    (gj_solve : GradientCorrection.solver float) (d_idx : nat)
    (d_m_mat : list float) (DWIJ : vec3 float) (HIJ : float) (i : nat) :
  dim ≤ 3 →
  9 * d_idx + 9 ≤ length d_m_mat →
  (∀ k, k < dim → f_is_zero (f_abs (vnth DWIJ k) ⊕ f_1em4 ⊗ HIJ) = false) →
  i < dim →
  is_NaN (vnth (gj_solve (leading_block dim d_idx d_m_mat) DWIJ dim vzero) i) →
  GradientCorrection.loop dim tol gj_solve d_idx d_m_mat DWIJ HIJ
  = Ok (GradientCorrection.Arrays d_m_mat DWIJ).
Proof.
  intros Hn Hlen Hnz Hi Hnan. unfold GradientCorrection.loop. cbv zeta.
  cbn [GradientCorrection.a_m_mat GradientCorrection.a_DWIJ].
  rewrite copy_block_Ok, bind_Ok by done.
  rewrite relative_change_Ok, bind_Ok by done.
  change (f_le ?x tol) with (x <=? tol)%float.
  by rewrite (NaN_leb_l _ tol (NaN_relative_change dim DWIJ _ HIJ i Hi Hnan)).
Qed.


Section Coincident.
Context {F : Type} `{SF : Scalar F}.
Variables (n a : nat) (KERNEL : Kernel F) (dst src : particles F).

Lemma moment_fold_apart (dw : sample F → F) i j (bs : list nat) (acc : F) :
  fold_left (add_guarded dw i j) (pair_sample KERNEL dst src a <$> bs) acc
  = fold_left (add_guarded dw i j)
      (pair_sample KERNEL dst src a <$> filter (apart KERNEL dst src a) bs) acc.
Proof.
  revert acc. induction bs as [|b bs IH]; intros acc; [done|].
  rewrite filter_cons, fmap_cons. cbn [fold_left]. case_decide as Hb.
  - rewrite fmap_cons. cbn [fold_left]. apply IH.
  - rewrite <- IH. f_equal. unfold add_guarded. unfold apart in Hb.
    by destruct (f_le f_1em12 (sm_r (pair_sample KERNEL dst src a b))).
Qed.

(** X17. For every scalar type, binary64 included: the moment-matrix
    assembler returns the same array whether or not the neighbour list
    contains the neighbours with [r < 1e-12] (such as the particle itself);
    removing them from the list changes nothing. *)
Theorem coincident_neighbours_irrelevant (d_m_mat : list F)
    (NBRS NBRS' : list nat) (N_NBRS N_NBRS' : nat) :
  n ≤ 3 →
  destination_ok dst a d_m_mat →
  N_NBRS ≤ length NBRS →
  N_NBRS' ≤ length NBRS' →
  Forall (neighbour_ok src) (take N_NBRS NBRS) →
  take N_NBRS' NBRS' = filter (apart KERNEL dst src a) (take N_NBRS NBRS) →
  ∃ m, moment_matrix n KERNEL dst src a d_m_mat NBRS N_NBRS = Ok m ∧
       moment_matrix n KERNEL dst src a d_m_mat NBRS' N_NBRS' = Ok m.
Proof.
  intros Hn Hdst HN HN' Hok Hfilter.
  assert (Forall (neighbour_ok src) (take N_NBRS' NBRS')) as Hok'.
  { rewrite Hfilter. rewrite Forall_forall in Hok |- *. intros b Hb.
    apply list_elem_of_filter in Hb as [_ Hb]. by apply Hok. }
  destruct (moment_matrix_entries n a KERNEL dst src d_m_mat NBRS N_NBRS)
    as (m & Hrun & Hm); [done..|].
  destruct (moment_matrix_entries n a KERNEL dst src d_m_mat NBRS' N_NBRS')
    as (m' & Hrun' & Hm'); [done..|].
  exists m. split; [done|]. rewrite Hrun'. f_equal.
  destruct Hm as (Hl & Hin & Hout), Hm' as (Hl' & Hin' & Hout').
  apply list_eq. intros k.
  destruct (decide (9 * a ≤ k < 9 * a + 9)) as [Hk|Hk].
  - apply slot_index in Hk as (i & j & Hi & Hj & ->).
    rewrite Hin, Hin' by done. f_equal. case_decide; [|done].
    unfold moment_entry. rewrite Hfilter. symmetry. apply moment_fold_apart.
  - rewrite Hout, Hout' by lia. done.
Qed.

Lemma for_range_getitem_beyond {S} (NBRS : list nat) N (f : nat → S → result S) s :
  length NBRS < N →
  for_range N (λ k s, b ← getitem NBRS k; f b s) s
  = (s' ← foldM f NBRS s; Raise IndexError).
Proof.
  intros HN. unfold for_range.
  replace N with (length NBRS + Datatypes.S (N - Datatypes.S (length NBRS))) by lia.
  rewrite seq_app, foldM_app.
  change (foldM ?body (seq 0 ?k) s) with (for_range k body s).
  rewrite for_range_getitem by done. rewrite firstn_all.
  destruct (foldM f NBRS s) as [s1|e]; [|done]. rewrite !bind_Ok.
  cbn [seq]. apply foldM_cons_Raise.
  unfold getitem. by rewrite lookup_ge_None_2.
Qed.

(** X18. A neighbour count larger than the list: once all the entries of
    [NBRS] have been processed, both assemblers raise [IndexError]. *)
Theorem count_beyond_list_raises (d_m_mat d_cwij : list F) NBRS N_NBRS :
  n ≤ 3 →
  destination_ok dst a d_m_mat →
  length NBRS < N_NBRS →
  Forall (neighbour_ok src) NBRS →
  moment_matrix n KERNEL dst src a d_m_mat NBRS N_NBRS = Raise IndexError ∧
  mixed_matrix n KERNEL dst src a d_m_mat d_cwij NBRS N_NBRS = Raise IndexError.
Proof.
  intros Hn (Hx & Hy & Hz & Hh & Hlen) HN Hok.
  apply neighbours_readable in Hok.
  destruct (zero_m_mat_Ok a d_m_mat Hlen) as (m1 & Hinit & Hzeroed).
  assert (9 * a + 9 ≤ length m1) as Hlen1 by (destruct Hzeroed as [-> _]; done).
  split.
  - unfold moment_matrix, GradientCorrectionPreStep.assemble.
    unfold GradientCorrectionPreStep.initialize. rewrite Hinit, bind_Ok.
    unfold GradientCorrectionPreStep.loop_all.
    rewrite !getitem_lt by done. rewrite !bind_Ok. cbv zeta.
    rewrite (for_range_getitem_beyond NBRS N_NBRS
      (GradientCorrectionPreStep.neighbour n a
         (p_x dst !!! a) (p_y dst !!! a) (p_z dst !!! a) (p_h dst !!! a)
         (p_m src) (p_rho src) (p_x src) (p_y src) (p_z src) (p_h src) KERNEL))
      by done.
    destruct (foldM_folded n a (λ m : list F, m) (λ _, True) grad_norm
                (pair_sample KERNEL dst src a)
                (GradientCorrectionPreStep.neighbour n a
                   (p_x dst !!! a) (p_y dst !!! a) (p_z dst !!! a) (p_h dst !!! a)
                   (p_m src) (p_rho src) (p_x src) (p_y src) (p_z src) (p_h src) KERNEL)
                NBRS Hn) with (s := m1) as (m2 & Hrun & _ & _); [|done..|].
    { intros b' m Hb' _ Hm.
      destruct (GradientCorrectionPreStep_neighbour_Ok n a KERNEL dst src b' m)
        as (m3 & ? & ?); [done..| |by exists m3].
      rewrite Forall_forall in Hok. by apply Hok. }
    by rewrite Hrun.
  - unfold mixed_matrix, MixedKernelCorrectionPreStep.assemble.
    unfold MixedKernelCorrectionPreStep.initialize. rewrite Hinit, bind_Ok.
    unfold MixedKernelCorrectionPreStep.loop_all.
    rewrite !getitem_lt by done. rewrite !bind_Ok. cbv zeta.
    rewrite init_locals, bind_Ok.
    rewrite (for_range_getitem_beyond NBRS N_NBRS
      (MixedKernelCorrectionPreStep.pass1_neighbour n
         (p_x dst !!! a) (p_y dst !!! a) (p_z dst !!! a) (p_h dst !!! a)
         (p_m src) (p_rho src) (p_x src) (p_y src) (p_z src) (p_h src) KERNEL))
      by done.
    destruct (pass1_Ok n a KERNEL dst src NBRS f_zero vzero Hn Hok)
      as (num & Hpass1 & _).
    by rewrite Hpass1.
Qed.

End Coincident.

(** ** The further properties at concrete inputs *)

Lemma assembly_writes_own_slot_witness :
  (∃ m', moment_matrix 2 test_kernel_closed three_particles three_particles 1
           (replicate 27 5%float) [0; 1; 2] 3 = Ok m' ∧
         isolated 1 (replicate 27 5%float) m') ∧
  (∃ m' c', mixed_matrix 2 test_kernel_closed three_particles three_particles 1
              (replicate 27 5%float) [5; 5; 5]%float [0; 1; 2] 3 = Ok (m', c') ∧
            isolated 1 (replicate 27 5%float) m').
Proof.
  split.
  - eexists. split; [vm_compute; reflexivity|].
    eapply (assembly_writes_own_slot 2 test_kernel_closed three_particles
              three_particles 1 (replicate 27 5%float) [5; 5; 5]%float [0; 1; 2] 3).
    left. vm_compute. reflexivity.
  - do 2 eexists. split; [vm_compute; reflexivity|].
    eapply (assembly_writes_own_slot 2 test_kernel_closed three_particles
              three_particles 1 (replicate 27 5%float) [5; 5; 5]%float [0; 1; 2] 3).
    right. eexists. vm_compute. reflexivity.
Defined.

Lemma mixed_writes_own_cwij_witness :
  ∃ m' c', mixed_matrix 2 test_kernel_closed three_particles three_particles 1
             (replicate 27 5%float) [5; 5; 5]%float [0; 1; 2] 3 = Ok (m', c') ∧
           1 < length [5; 5; 5]%float ∧ length c' = length [5; 5; 5]%float ∧
           ∀ k, k ≠ 1 → c' !! k = [5; 5; 5]%float !! k.
Proof.
  do 2 eexists. split; [vm_compute; reflexivity|].
  eapply (mixed_writes_own_cwij 2 test_kernel_closed three_particles
            three_particles 1 (replicate 27 5%float) [5; 5; 5]%float [0; 1; 2] 3).
  vm_compute. reflexivity.
Defined.

Lemma assembly_recomputes_witness :
  (∃ m, moment_matrix 2 test_kernel_closed three_particles three_particles 1
          (replicate 27 5%float) [0; 1; 2] 3 = Ok m ∧
        moment_matrix 2 test_kernel_closed three_particles three_particles 1
          (replicate 9 5 ++ replicate 9 7 ++ replicate 9 5)%float [0; 1; 2] 3 = Ok m ∧
        moment_matrix 2 test_kernel_closed three_particles three_particles 1
          m [0; 1; 2] 3 = Ok m) ∧
  (∃ m c, mixed_matrix 2 test_kernel_closed three_particles three_particles 1
            (replicate 27 5%float) [5; 5; 5]%float [0; 1; 2] 3 = Ok (m, c) ∧
          mixed_matrix 2 test_kernel_closed three_particles three_particles 1
            (replicate 9 5 ++ replicate 9 7 ++ replicate 9 5)%float
            [5; 5; 5]%float [0; 1; 2] 3 = Ok (m, c) ∧
          mixed_matrix 2 test_kernel_closed three_particles three_particles 1
            m c [0; 1; 2] 3 = Ok (m, c)).
Proof.
  apply (assembly_recomputes 2 test_kernel_closed three_particles three_particles 1
           (replicate 27 5%float)
           (replicate 9 5 ++ replicate 9 7 ++ replicate 9 5)%float
           [5; 5; 5]%float [0; 1; 2] 3); [check_inputs..| |].
  - right. right. vm_compute. reflexivity.
  - split; [reflexivity|]. intros k Hk.
    do 27 (destruct k as [|k]; [try lia; reflexivity|]). reflexivity.
Defined.

Lemma assemblies_commute_witness :
  ∃ m,
    (m1 ← moment_matrix 2 test_kernel_closed three_particles three_particles 0
            (replicate 27 5%float) [0; 1; 2] 3;
     moment_matrix 2 test_kernel_closed three_particles three_particles 1
       m1 [1; 0; 2] 3) = Ok m ∧
    (m1 ← moment_matrix 2 test_kernel_closed three_particles three_particles 1
            (replicate 27 5%float) [1; 0; 2] 3;
     moment_matrix 2 test_kernel_closed three_particles three_particles 0
       m1 [0; 1; 2] 3) = Ok m.
Proof.
  apply (assemblies_commute 2 test_kernel_closed three_particles three_particles
           0 1 (replicate 27 5%float) [0; 1; 2] [1; 0; 2] 3 3); check_inputs.
Defined.

Ltac check_inputs_R :=
  repeat constructor; simpl; try lia;
  try (apply R_is_zero_false; unfold kernel_sum; simpl; lra);
  try (unfold volume_nonneg; simpl; lra).

Lemma assembled_matrix_symmetric_witness :
  (∃ m, moment_matrix 2 flat_kernel two_particles_R two_particles_R 0
          (replicate 9 5%R) [0; 1] 2 = Ok m ∧ symmetric 0 m) ∧
  (∃ m c, mixed_matrix 2 flat_kernel two_particles_R two_particles_R 0
            (replicate 9 5%R) [5%R; 5%R] [0; 1] 2 = Ok (m, c) ∧ symmetric 0 m).
Proof.
  apply (assembled_matrix_symmetric 2 flat_kernel two_particles_R two_particles_R
           0 (replicate 9 5%R) [5%R; 5%R] [0; 1] 2); [check_inputs_R..|].
  right. right. check_inputs_R.
Defined.

Lemma assembled_matrix_positive_semidefinite_witness :
  (∃ m, moment_matrix 2 flat_kernel two_particles_R two_particles_R 0
          (replicate 9 5%R) [0; 1] 2 = Ok m ∧
        ∀ u, (0 <= quadratic_form 0 u m)%R) ∧
  (∃ m c, mixed_matrix 2 flat_kernel two_particles_R two_particles_R 0
            (replicate 9 5%R) [5%R; 5%R] [0; 1] 2 = Ok (m, c) ∧
          ∀ u, (0 <= quadratic_form 0 u m)%R).
Proof.
  apply (assembled_matrix_positive_semidefinite 2 flat_kernel two_particles_R
           two_particles_R 0 (replicate 9 5%R) [5%R; 5%R] [0; 1] 2);
    [check_inputs_R..|].
  right. right. check_inputs_R.
Defined.

Lemma mixed_cwij_is_kernel_correction_witness :
  ∃ m c,
    mixed_matrix 2 flat_kernel two_particles_R two_particles_R 0
      (replicate 9 5%R) [5%R; 5%R] [0; 1] 2 = Ok (m, c) ∧
    KernelCorrection.run 0 [5%R; 5%R] (p_m two_particles_R) (p_rho two_particles_R)
      (kernel_pairs flat_kernel two_particles_R two_particles_R 0 (take 2 [0; 1]))
    = Ok c.
Proof.
  apply (mixed_cwij_is_kernel_correction 2 flat_kernel two_particles_R
           two_particles_R 0 (replicate 9 5%R) [5%R; 5%R] [0; 1] 2);
    [check_inputs_R..|].
  right. right. check_inputs_R.
Defined.

Lemma zero_density_not_finite_witness :
  (∃ c, KernelCorrection.run 0 [5; 5]%float
          (p_m two_particles_void) (p_rho two_particles_void)
          (kernel_pairs test_kernel_closed two_particles two_particles_void 0
             (take 2 [0; 1])) = Ok c ∧
        not_finite (c !!! 0)) ∧
  (∃ m c, mixed_matrix 2 test_kernel_closed two_particles two_particles_void 0
            (replicate 9 5%float) [5; 5]%float [0; 1] 2 = Ok (m, c) ∧
          not_finite (c !!! 0) ∧
          (apart test_kernel_closed two_particles two_particles_void 0 1 →
           ∀ i j, i < 2 → j < 2 → not_finite (m !!! (9 * 0 + 3 * i + j)))) ∧
  (∃ m, moment_matrix 2 test_kernel_closed two_particles two_particles_void 0
          (replicate 9 5%float) [0; 1] 2 = Ok m ∧
        (apart test_kernel_closed two_particles two_particles_void 0 1 →
         ∀ i j, i < 2 → j < 2 → not_finite (m !!! (9 * 0 + 3 * i + j)))).
Proof.
  apply (zero_density_not_finite 2 0 test_kernel_closed two_particles
           two_particles_void (replicate 9 5%float) [5; 5]%float [0; 1] 2 1);
    check_inputs.
Defined.

Lemma zero_den_not_finite_witness :
  ∃ m, mixed_matrix 2 test_kernel two_particles two_particles 0
         (replicate 9 5%float) [5; 5]%float [1] 1
       = Ok (m, <[0 := kernel_sum (pair_sample test_kernel two_particles
                                     two_particles 0 <$> take 1 [1])]>
                  [5; 5]%float) ∧
       ∀ i j, i < 2 → j < 2 → not_finite (m !!! (9 * 0 + 3 * i + j)).
Proof.
  apply (zero_den_not_finite 2 0 test_kernel two_particles two_particles
           (replicate 9 5%float) [5; 5]%float [1] 1); check_inputs.
Defined.

Lemma corrector_large_dim_witness :
  GradientCorrection.loop 4 0.5%float diagonal_solver 0 (replicate 18 1%float)
    (Vec3 1 2 0)%float 1%float = Raise IndexError.
Proof.
  apply (corrector_large_dim 4 0.5%float diagonal_solver 0 (replicate 18 1%float)
           (Vec3 1 2 0)%float 1%float). lia.
Defined.

Lemma corrector_keeps_tail_witness :
  ∃ out, GradientCorrection.loop 2 0.5%float diagonal_solver 0
           [1.25; 0; 0; 0; 1.25; 0; 0; 0; 0]%float (Vec3 1 2 3)%float 1%float
         = Ok out ∧
         GradientCorrection.a_DWIJ out = (Vec3 (1 / 1.25) (2 / 1.25) 3)%float ∧
         ∀ i, 2 ≤ i → i < 3 →
           vnth (GradientCorrection.a_DWIJ out) i = vnth (Vec3 1 2 3)%float i.
Proof.
  eexists. split; [vm_compute; reflexivity|]. split; [reflexivity|].
  apply (corrector_keeps_tail 2 0.5%float diagonal_solver 0
           [1.25; 0; 0; 0; 1.25; 0; 0; 0; 0]%float (Vec3 1 2 3)%float 1%float).
  vm_compute. reflexivity.
Defined.

Lemma assemblers_large_dim_witness :
  moment_matrix 4 test_kernel_closed three_particles three_particles 0
    (replicate 27 5%float) [0; 1; 2] 3 = Raise IndexError ∧
  mixed_matrix 4 test_kernel_closed three_particles three_particles 0
    (replicate 27 5%float) [5; 5; 5]%float [0; 1; 2] 3 = Raise IndexError.
Proof.
  destruct (assemblers_large_dim 4 0 test_kernel_closed three_particles
              three_particles (replicate 27 5%float) [5; 5; 5]%float [0; 1; 2] 3)
    as [H1 H2]; [check_inputs..|].
  split.
  - apply H1. apply Exists_cons. right. apply Exists_cons. left.
    vm_compute. reflexivity.
  - apply H2. lia.
Defined.

Lemma neighbours_beyond_count_ignored_witness :
  moment_matrix 2 test_kernel_closed three_particles three_particles 0
    (replicate 27 5%float) [0; 1; 2; 7] 3
  = moment_matrix 2 test_kernel_closed three_particles three_particles 0
      (replicate 27 5%float) [0; 1; 2; 9; 9] 3 ∧
  mixed_matrix 2 test_kernel_closed three_particles three_particles 0
    (replicate 27 5%float) [5; 5; 5]%float [0; 1; 2; 7] 3
  = mixed_matrix 2 test_kernel_closed three_particles three_particles 0
      (replicate 27 5%float) [5; 5; 5]%float [0; 1; 2; 9; 9] 3.
Proof.
  apply (neighbours_beyond_count_ignored 2 test_kernel_closed three_particles
           three_particles 0 (replicate 27 5%float) [5; 5; 5]%float
           [0; 1; 2; 7] [0; 1; 2; 9; 9] 3).
  reflexivity.
Defined.

Lemma kernel_correction_left_to_right_witness :
  KernelCorrection.run 0 [5%float] [1; 1; 1]%float [1; 1; 1]%float
    [(0, 0x1p60%float); (1, 1%float); (2, (-0x1p60)%float)] = Ok [0%float].
Proof.
  refine (kernel_correction_left_to_right 0 [5%float] [1; 1; 1]%float [1; 1; 1]%float
            [(0, 0x1p60%float); (1, 1%float); (2, (-0x1p60)%float)] _ _);
    check_inputs.
Defined.

Lemma nan_solution_rejected_witness :
  GradientCorrection.loop 2 0.5%float diagonal_solver 0 (replicate 9 0%float)
    (Vec3 0 1 0)%float 1%float
  = Ok (GradientCorrection.Arrays (replicate 9 0%float) (Vec3 0 1 0)%float).
Proof.
  apply (nan_solution_rejected 2 0.5%float diagonal_solver 0 (replicate 9 0%float)
           (Vec3 0 1 0)%float 1%float 0).
  - lia.
  - simpl; lia.
  - intros [|[|?]] ?; [reflexivity..|lia].
  - lia.
  - vm_compute. reflexivity.
Defined.

Lemma coincident_neighbours_irrelevant_witness :
  ∃ m, moment_matrix 2 test_kernel_closed three_particles three_particles 0
         (replicate 27 5%float) [0; 1; 0; 2] 4 = Ok m ∧
       moment_matrix 2 test_kernel_closed three_particles three_particles 0
         (replicate 27 5%float) [1; 2] 2 = Ok m.
Proof.
  apply (coincident_neighbours_irrelevant 2 0 test_kernel_closed three_particles
           three_particles (replicate 27 5%float) [0; 1; 0; 2] [1; 2] 4 2);
    [check_inputs..|].
  vm_compute. reflexivity.
Defined.

Lemma count_beyond_list_raises_witness :
  moment_matrix 2 test_kernel_closed three_particles three_particles 0
    (replicate 27 5%float) [0; 1; 2] 5 = Raise IndexError ∧
  mixed_matrix 2 test_kernel_closed three_particles three_particles 0
    (replicate 27 5%float) [5; 5; 5]%float [0; 1; 2] 5 = Raise IndexError.
Proof.
  apply (count_beyond_list_raises 2 0 test_kernel_closed three_particles
           three_particles (replicate 27 5%float) [5; 5; 5]%float [0; 1; 2] 5);
    check_inputs.
Defined.
